(** * web-crawler: a shallow embedding of [main.go]

    The crawler is one Go file.  Its functions are embedded here in the
    order a reader meets them when following [process]:

    - the pieces of the Go standard library the crawler calls
      ([strings], [net/url], [path], [path/filepath], [unicode/utf8],
      [regexp]), as executable functions on byte strings;
    - the document tree of [golang.org/x/net/html] and [extractUrls];
    - the world the crawler acts on (visited list [URLs], mirror
      directory, network, trace of observable actions) with a small
      state-and-panic monad, and [download], [checkForFile], [save],
      [parseHTML], [process];
    - the goroutines of a crawl, interleaved by a scheduler at the
      places where [process] reads or writes what they share.

    A Go [string] is a sequence of bytes; it is modelled by [string]
    (a list of [ascii], one per byte).  Line numbers are those of
    [main.go]. *)

From Stdlib Require Import Ascii String NArith List Lia Bool.
From stdpp Require Import base option strings gmap list fin_maps.

Set Warnings "-register-all,-abstract-large-number".

Open Scope string_scope.
Open Scope list_scope.

(** ** Package [strings] *)

Module strings.

Fixpoint HasPrefix (s prefix : string) : bool :=
  match prefix, s with
  | EmptyString, _ => true
  | String p prefix', String c s' => Ascii.eqb c p && HasPrefix s' prefix'
  | String _ _, EmptyString => false
  end.

(** [s[n:]] *)
Fixpoint drop (n : nat) (s : string) : string :=
  match n, s with
  | O, _ => s
  | S n', String _ s' => drop n' s'
  | S _, EmptyString => EmptyString
  end.

(** [s[:n]] *)
Fixpoint take (n : nat) (s : string) : string :=
  match n, s with
  | O, _ => EmptyString
  | S n', String c s' => String c (take n' s')
  | S _, EmptyString => EmptyString
  end.

Definition HasSuffix (s suffix : string) : bool :=
  (String.length suffix <=? String.length s)%nat &&
  String.eqb (drop (String.length s - String.length suffix) s) suffix.

Definition TrimSuffix (s suffix : string) : string :=
  if HasSuffix s suffix
  then take (String.length s - String.length suffix) s
  else s.

(** [Index] returns the position of the first instance of [substr],
    [None] standing for Go's [-1]. *)
Fixpoint Index (s substr : string) : option nat :=
  if HasPrefix s substr then Some O
  else match s with
       | EmptyString => None
       | String _ s' => option_map S (Index s' substr)
       end.

Fixpoint LastIndex (s substr : string) : option nat :=
  match s with
  | EmptyString => if HasPrefix s substr then Some O else None
  | String _ s' =>
      match LastIndex s' substr with
      | Some i => Some (S i)
      | None => if HasPrefix s substr then Some O else None
      end
  end.

Definition Contains (s substr : string) : bool :=
  match Index s substr with Some _ => true | None => false end.

(** [Cut] slices [s] around the first instance of [sep]. *)
Definition Cut (s sep : string) : string * string * bool :=
  match Index s sep with
  | Some i => (take i s, drop (i + String.length sep) s, true)
  | None => (s, EmptyString, false)
  end.

Definition lower (c : ascii) : ascii :=
  let n := N_of_ascii c in
  if ((65 <=? n) && (n <=? 90))%N then ascii_of_N (n + 32) else c.

Fixpoint ToLower (s : string) : string :=
  match s with
  | EmptyString => EmptyString
  | String c s' => String (lower c) (ToLower s')
  end.

End strings.

(** Go's [error] values carry a message; only their presence matters to
    the crawler. *)
Definition error := string.

Inductive result (A : Type) : Type :=
| Ok (a : A)
| Err (e : error).
Arguments Ok {A} a.
Arguments Err {A} e.

(** ** Package [net/url]

    [url.Parse] with the functions it calls, after the Go 1.2x sources.
    The crawler reads only [Scheme], [Host] and [Path] of a parsed URL;
    the fields [RawPath] and [RawFragment], which [Parse] derives from
    the already validated input and which cannot make it fail, are left
    out of the record. *)

Module url.

Record URL : Type := mkURL {
  Scheme : string;
  Opaque : string;
  User : option (string * option string);
  Host : string;
  Path : string;
  OmitHost : bool;
  ForceQuery : bool;
  RawQuery : string;
  Fragment : string
}.

Inductive encoding : Type :=
| encodePath | encodePathSegment | encodeHost | encodeZone
| encodeUserPassword | encodeQueryComponent | encodeFragment.

Definition between (lo hi : N) (c : ascii) : bool :=
  ((lo <=? N_of_ascii c) && (N_of_ascii c <=? hi))%N.

Definition isletter (c : ascii) : bool := between 97 122 c || between 65 90 c.
Definition isdigit (c : ascii) : bool := between 48 57 c.

(** [c] is one of the bytes of [set]. *)
Fixpoint oneof (c : ascii) (set : string) : bool :=
  match set with
  | EmptyString => false
  | String d set' => Ascii.eqb c d || oneof c set'
  end.

Definition dquote : ascii := ascii_of_N 34.

Definition ishex (c : ascii) : bool :=
  isdigit c || between 97 102 c || between 65 70 c.

Definition unhex (c : ascii) : N :=
  (if isdigit c then N_of_ascii c - 48
   else if between 97 102 c then N_of_ascii c - 97 + 10
   else if between 65 70 c then N_of_ascii c - 65 + 10
   else 0)%N.

Definition is_host_mode (mode : encoding) : bool :=
  match mode with encodeHost | encodeZone => true | _ => false end.

Definition shouldEscape (c : ascii) (mode : encoding) : bool :=
  if isletter c || isdigit c then false
  else if is_host_mode mode && (oneof c "!$&'()*+,;=:[]<>" || Ascii.eqb c dquote)
  then false
  else if oneof c "-_.~" then false
  else if oneof c "$&+,/:;=?@" then
    match mode with
    | encodePath => Ascii.eqb c "?"
    | encodePathSegment => oneof c "/;,?"
    | encodeUserPassword => oneof c "@/?:"
    | encodeQueryComponent => true
    | encodeFragment => false
    | encodeHost | encodeZone => true
    end
  else match mode with
       | encodeFragment => negb (oneof c "!()*")
       | _ => true
       end.

(** [unescape]: the validating pass and the decoding pass of the Go
    function run here in one traversal; the first malformed escape or
    forbidden host byte is reported, as in the source. *)
Fixpoint unescape (s : string) (mode : encoding) : result string :=
  match s with
  | EmptyString => Ok EmptyString
  | String "%" (String a (String b rest)) =>
      if negb (ishex a && ishex b) then Err "invalid URL escape"
      else if match mode with encodeHost => true | _ => false end
              && (unhex a <? 8)%N
              && negb (Ascii.eqb a "2" && Ascii.eqb b "5")
      then Err "invalid URL escape"
      else
        let v := ascii_of_N (unhex a * 16 + unhex b) in
        if match mode with encodeZone => true | _ => false end
           && negb (Ascii.eqb a "2" && Ascii.eqb b "5")
           && negb (Ascii.eqb v " ")
           && shouldEscape v encodeHost
        then Err "invalid URL escape"
        else match unescape rest mode with
             | Ok t => Ok (String v t)
             | Err e => Err e
             end
  | String "%" _ => Err "invalid URL escape"
  | String "+" rest =>
      match unescape rest mode with
      | Ok t => Ok (String (match mode with
                            | encodeQueryComponent => " "%char
                            | _ => "+"%char
                            end) t)
      | Err e => Err e
      end
  | String c rest =>
      if is_host_mode mode && (N_of_ascii c <? 128)%N && shouldEscape c encodeHost
      then Err "invalid character in host name"
      else match unescape rest mode with
           | Ok t => Ok (String c t)
           | Err e => Err e
           end
  end.

Fixpoint stringContainsCTLByte (s : string) : bool :=
  match s with
  | EmptyString => false
  | String b s' =>
      (N_of_ascii b <? 32)%N || (N_of_ascii b =? 127)%N || stringContainsCTLByte s'
  end.

(** The loop of [getScheme]: [i] is the index of the first byte of
    [rest] in [rawURL]. *)
Fixpoint getScheme_from (i : nat) (rawURL rest : string)
  : result (string * string) :=
  match rest with
  | EmptyString => Ok (EmptyString, rawURL)
  | String c rest' =>
      if isletter c then getScheme_from (S i) rawURL rest'
      else if isdigit c || oneof c "+-." then
        match i with
        | O => Ok (EmptyString, rawURL)
        | S _ => getScheme_from (S i) rawURL rest'
        end
      else if Ascii.eqb c ":" then
        match i with
        | O => Err "missing protocol scheme"
        | S _ => Ok (strings.take i rawURL, rest')
        end
      else Ok (EmptyString, rawURL)
  end.

Definition getScheme (rawURL : string) : result (string * string) :=
  getScheme_from O rawURL rawURL.

Fixpoint alldigits (s : string) : bool :=
  match s with
  | EmptyString => true
  | String b s' => isdigit b && alldigits s'
  end.

Definition validOptionalPort (port : string) : bool :=
  match port with
  | EmptyString => true
  | String c digits => Ascii.eqb c ":" && alldigits digits
  end.

Fixpoint validUserinfo (s : string) : bool :=
  match s with
  | EmptyString => true
  | String r s' =>
      (isletter r || isdigit r || oneof r "-._:~!$&'()*+,;=%@") && validUserinfo s'
  end.

Definition parseHost (host : string) : result string :=
  if strings.HasPrefix host "[" then
    match strings.LastIndex host "]" with
    | None => Err "missing ']' in host"
    | Some i =>
        let colonPort := strings.drop (i + 1) host in
        if negb (validOptionalPort colonPort) then Err "invalid port after host"
        else
          match strings.Index (strings.take i host) "%25" with
          | Some zone =>
              match unescape (strings.take zone host) encodeHost with
              | Err e => Err e
              | Ok host1 =>
                  match unescape (strings.take (i - zone) (strings.drop zone host))
                                 encodeZone with
                  | Err e => Err e
                  | Ok host2 =>
                      match unescape (strings.drop i host) encodeHost with
                      | Err e => Err e
                      | Ok host3 => Ok (host1 +:+ host2 +:+ host3)
                      end
                  end
              end
          | None => unescape host encodeHost
          end
    end
  else
    match strings.LastIndex host ":" with
    | Some i =>
        if negb (validOptionalPort (strings.drop i host))
        then Err "invalid port after host"
        else unescape host encodeHost
    | None => unescape host encodeHost
    end.

Definition parseAuthority (authority : string)
  : result (option (string * option string) * string) :=
  match strings.LastIndex authority "@" with
  | None =>
      match parseHost authority with
      | Err e => Err e
      | Ok host => Ok (None, host)
      end
  | Some i =>
      match parseHost (strings.drop (i + 1) authority) with
      | Err e => Err e
      | Ok host =>
          let userinfo := strings.take i authority in
          if negb (validUserinfo userinfo) then Err "net/url: invalid userinfo"
          else if negb (strings.Contains userinfo ":") then
            match unescape userinfo encodeUserPassword with
            | Err e => Err e
            | Ok username => Ok (Some (username, None), host)
            end
          else
            let '(username, password, _) := strings.Cut userinfo ":" in
            match unescape username encodeUserPassword with
            | Err e => Err e
            | Ok username =>
                match unescape password encodeUserPassword with
                | Err e => Err e
                | Ok password => Ok (Some (username, Some password), host)
                end
            end
      end
  end.

Fixpoint Count (s : string) (c : ascii) : nat :=
  match s with
  | EmptyString => O
  | String d s' => (if Ascii.eqb d c then 1 else 0) + Count s' c
  end.

Definition parse (rawURL : string) (viaRequest : bool) : result URL :=
  if stringContainsCTLByte rawURL
  then Err "net/url: invalid control character in URL"
  else if String.eqb rawURL "" && viaRequest then Err "empty url"
  else if String.eqb rawURL "*"
  then Ok (mkURL "" "" None "" "*" false false "" "")
  else
    match getScheme rawURL with
    | Err e => Err e
    | Ok (scheme, rest) =>
        let scheme := strings.ToLower scheme in
        let '(rest, forceQuery, rawQuery) :=
          if strings.HasSuffix rest "?" && (Count rest "?" =? 1)%nat
          then (strings.take (String.length rest - 1) rest, true, EmptyString)
          else let '(r, q, _) := strings.Cut rest "?" in (r, false, q) in
        if negb (strings.HasPrefix rest "/") && negb (String.eqb scheme "")
        then (* rootless paths are opaque *)
          Ok (mkURL scheme rest None "" "" false forceQuery rawQuery "")
        else if negb (strings.HasPrefix rest "/") && viaRequest
        then Err "invalid URI for request"
        else if negb (strings.HasPrefix rest "/")
                && strings.Contains (fst (fst (strings.Cut rest "/"))) ":"
        then Err "first path segment in URL cannot contain colon"
        else
          let authorityPart :=
            if (negb (String.eqb scheme "")
                || negb viaRequest && negb (strings.HasPrefix rest "///"))
               && strings.HasPrefix rest "//"
            then
              let authority := strings.drop 2 rest in
              let '(authority, rest) :=
                match strings.Index authority "/" with
                | Some i => (strings.take i authority, strings.drop i authority)
                | None => (authority, EmptyString)
                end in
              match parseAuthority authority with
              | Err e => Err e
              | Ok (user, host) => Ok (user, host, false, rest)
              end
            else if negb (String.eqb scheme "") && strings.HasPrefix rest "/"
            then Ok (None, EmptyString, true, rest)
            else Ok (None, EmptyString, false, rest) in
          match authorityPart with
          | Err e => Err e
          | Ok (user, host, omitHost, rest) =>
              (* setPath *)
              match unescape rest encodePath with
              | Err e => Err e
              | Ok path =>
                  Ok (mkURL scheme "" user host path omitHost forceQuery rawQuery "")
              end
          end
    end.

Definition setFragment (u : URL) (f : string) : result URL :=
  match unescape f encodeFragment with
  | Err e => Err e
  | Ok frag =>
      Ok (mkURL (Scheme u) (Opaque u) (User u) (Host u) (Path u)
                (OmitHost u) (ForceQuery u) (RawQuery u) frag)
  end.

Definition Parse (rawURL : string) : result URL :=
  let '(u, frag, _) := strings.Cut rawURL "#" in
  match parse u false with
  | Err e => Err e
  | Ok url =>
      if String.eqb frag "" then Ok url else setFragment url frag
  end.

End url.

(** ** Packages [path] and [path/filepath] (Unix) *)

Module path.

(** The elements of a path between its separators. *)
Fixpoint split (s : string) : list string :=
  match s with
  | EmptyString => [EmptyString]
  | String c s' =>
      match split s' with
      | e :: es => if Ascii.eqb c "/" then EmptyString :: e :: es
                   else String c e :: es
      | [] => [String c EmptyString]
      end
  end.

Fixpoint trimTrailingSlashes_rev (r : list string) : list string :=
  match r with
  | EmptyString :: r' => trimTrailingSlashes_rev r'
  | _ => r
  end.

(** [Base] returns the last element of [path]; trailing slashes are
    removed before extracting it; the empty path gives ".", a path of
    slashes only gives "/". *)
Definition Base (path : string) : string :=
  if String.eqb path "" then "."
  else match trimTrailingSlashes_rev (rev (split path)) with
       | [] => "/"
       | e :: _ => if String.eqb e "" then "/" else e
       end.

(** [Clean], element by element: [out] holds the elements written so
    far, last first. *)
Fixpoint clean_elems (rooted : bool) (elems out : list string) : list string :=
  match elems with
  | [] => rev out
  | e :: elems' =>
      if String.eqb e "" || String.eqb e "." then clean_elems rooted elems' out
      else if String.eqb e ".." then
        match out with
        | top :: out' =>
            if String.eqb top ".."
            then clean_elems rooted elems' (e :: out)
            else clean_elems rooted elems' out'
        | [] => if rooted then clean_elems rooted elems' out
                else clean_elems rooted elems' (e :: out)
        end
      else clean_elems rooted elems' (e :: out)
  end.

Fixpoint join (elems : list string) : string :=
  match elems with
  | [] => EmptyString
  | [e] => e
  | e :: es => e +:+ "/" +:+ join es
  end.

Definition Clean (path : string) : string :=
  if String.eqb path "" then "."
  else
    let rooted := strings.HasPrefix path "/" in
    let out := join (clean_elems rooted (split path) []) in
    if rooted then "/" +:+ out
    else if String.eqb out "" then "." else out.

End path.

Module filepath.

(** [Join] of two elements: empty elements are ignored, the rest is
    joined with the separator and cleaned. *)
Definition Join (a b : string) : string :=
  if negb (String.eqb a "") then path.Clean (a +:+ "/" +:+ b)
  else if negb (String.eqb b "") then path.Clean b
  else EmptyString.

End filepath.

(** ** Package [unicode/utf8]

    Go decodes a string rune by rune; a byte that does not start a
    well-formed encoding is decoded as [RuneError] of width one. *)

Module utf8.

Definition RuneError : N := 65533.

Inductive width : Type := W2 | W3 | W4.

(** The table [first] with [acceptRanges]: for the lead byte of a
    multi-byte encoding, its width and the range accepted for the
    second byte. *)
Definition first (b0 : ascii) : option (width * N * N) :=
  let n := N_of_ascii b0 in
  if ((194 <=? n) && (n <=? 223))%N then Some (W2, 128, 191)%N
  else if (n =? 224)%N then Some (W3, 160, 191)%N
  else if ((225 <=? n) && (n <=? 236))%N then Some (W3, 128, 191)%N
  else if (n =? 237)%N then Some (W3, 128, 159)%N
  else if ((238 <=? n) && (n <=? 239))%N then Some (W3, 128, 191)%N
  else if (n =? 240)%N then Some (W4, 144, 191)%N
  else if ((241 <=? n) && (n <=? 243))%N then Some (W4, 128, 191)%N
  else if (n =? 244)%N then Some (W4, 128, 143)%N
  else None.

Definition inrange (lo hi : N) (b : ascii) : bool :=
  ((lo <=? N_of_ascii b) && (N_of_ascii b <=? hi))%N.

Definition low6 (b : ascii) : N := (N_of_ascii b mod 64)%N.

(** The runes of [s], [None] marking a byte that decodes to
    [(RuneError, 1)]. *)
Fixpoint decode (s : string) : list (option N) :=
  match s with
  | EmptyString => []
  | String b0 s1 =>
      if (N_of_ascii b0 <? 128)%N then Some (N_of_ascii b0) :: decode s1
      else
        match first b0 with
        | None => None :: decode s1
        | Some (sz, lo, hi) =>
            match s1 with
            | String b1 s2 =>
                if negb (inrange lo hi b1) then None :: decode s1
                else
                  match sz with
                  | W2 => Some ((N_of_ascii b0 mod 32) * 64 + low6 b1)%N :: decode s2
                  | _ =>
                      match s2 with
                      | String b2 s3 =>
                          if negb (inrange 128 191 b2) then None :: decode s1
                          else
                            match sz with
                            | W4 =>
                                match s3 with
                                | String b3 s4 =>
                                    if negb (inrange 128 191 b3)
                                    then None :: decode s1
                                    else Some ((N_of_ascii b0 mod 8) * 262144
                                               + low6 b1 * 4096 + low6 b2 * 64
                                               + low6 b3)%N :: decode s4
                                | EmptyString => None :: decode s1
                                end
                            | _ => Some ((N_of_ascii b0 mod 16) * 4096
                                         + low6 b1 * 64 + low6 b2)%N :: decode s3
                            end
                      | EmptyString => None :: decode s1
                      end
                  end
            | EmptyString => None :: decode s1
            end
        end
  end.

(** [[]rune(s)] *)
Definition runes (s : string) : list N :=
  map (fun r => match r with Some c => c | None => RuneError end) (decode s).

Definition ValidString (s : string) : bool :=
  forallb (fun r => match r with Some _ => true | None => false end) (decode s).

End utf8.

(** ** Package [regexp]

    The part of Go's regular expressions the crawler's one pattern is
    written in: literals, escaped punctuation, [^], [$], [.], [*],
    alternation and non-capturing groups, under the default flags
    ([.] does not match a newline, [^] and [$] match only at the
    beginning and the end of the text).  [Compile] answers with an error
    on an expression with a syntax error, with invalid UTF-8, or outside
    this part of the syntax. *)

Module regexp.

Definition special (b : ascii) : bool := url.oneof b "\.+*?()|[]{}^$".

(** [QuoteMeta] escapes every metacharacter of [s] with a backslash. *)
Fixpoint QuoteMeta (s : string) : string :=
  match s with
  | EmptyString => EmptyString
  | String b s' =>
      if special b then String "\" (String b (QuoteMeta s'))
      else String b (QuoteMeta s')
  end.

Inductive Regexp : Type :=
| OpEmptyMatch
| OpLiteral (r : N)
| OpAnyCharNotNL
| OpBeginText
| OpEndText
| OpStar (sub : Regexp)
| OpConcat (a b : Regexp)
| OpAlternate (a b : Regexp).

(** The concatenation of the items collected for it, last first. *)
Fixpoint concat (items : list Regexp) : Regexp :=
  match items with
  | [] => OpEmptyMatch
  | [r] => r
  | r :: items' => OpConcat (concat items') r
  end.

(** The alternation of [last] with the alternatives before it, the
    nearest first. *)
Fixpoint alternate (last : Regexp) (alts : list Regexp) : Regexp :=
  match alts with
  | [] => last
  | a :: alts' => OpAlternate (alternate a alts') last
  end.

Definition isalnum (c : N) : bool :=
  (((48 <=? c) && (c <=? 57)) || ((65 <=? c) && (c <=? 90))
   || ((97 <=? c) && (c <=? 122)))%N.

(** The parser reads the runes of the expression from left to right.
    [cur] holds the items of the concatenation being read, last first,
    [alts] the alternatives already closed by a [|], and [stack] the
    same two for every group still open. *)
Fixpoint parse (t : list N) (cur alts : list Regexp)
         (stack : list (list Regexp * list Regexp)) : result Regexp :=
  match t with
  | [] =>
      match stack with
      | [] => Ok (alternate (concat cur) alts)
      | _ :: _ => Err "missing closing )"
      end
  | c :: t' =>
      if (c =? 40)%N then (* ( *)
        match t' with
        | q :: colon :: t'' =>
            if ((q =? 63) && (colon =? 58))%N
            then parse t'' [] [] ((cur, alts) :: stack)
            else Err "group outside the modelled syntax"
        | _ => Err "group outside the modelled syntax"
        end
      else if (c =? 124)%N then (* | *)
        parse t' [] (concat cur :: alts) stack
      else if (c =? 41)%N then (* ) *)
        match stack with
        | [] => Err "unexpected )"
        | (pcur, palts) :: stack' =>
            parse t' (alternate (concat cur) alts :: pcur) palts stack'
        end
      else if (c =? 42)%N then (* * *)
        match cur with
        | [] => Err "missing argument to repetition operator"
        | r :: cur' =>
            match t' with
            | d :: _ =>
                if ((d =? 42) || (d =? 43) || (d =? 63) || (d =? 123))%N
                then Err "repetition outside the modelled syntax"
                else parse t' (OpStar r :: cur') alts stack
            | [] => parse t' (OpStar r :: cur') alts stack
            end
        end
      else if (c =? 94)%N then parse t' (OpBeginText :: cur) alts stack
      else if (c =? 36)%N then parse t' (OpEndText :: cur) alts stack
      else if (c =? 46)%N then parse t' (OpAnyCharNotNL :: cur) alts stack
      else if (c =? 92)%N then (* \ *)
        match t' with
        | e :: t'' =>
            if ((e <? 128) && negb (isalnum e))%N
            then parse t'' (OpLiteral e :: cur) alts stack
            else Err "escape outside the modelled syntax"
        | [] => Err "trailing backslash at end of expression"
        end
      else if ((c =? 43) || (c =? 63) || (c =? 91) || (c =? 123))%N
      then Err "operator outside the modelled syntax"
      else parse t' (OpLiteral c :: cur) alts stack
  end.

Definition Compile (expr : string) : result Regexp :=
  if utf8.ValidString expr then parse (utf8.runes expr) [] [] []
  else Err "invalid UTF-8".

(** The matcher runs [re] on the runes [s] of the text left to read
    and hands what is left to the continuation [k]; [bt] tells whether
    [s] is still the whole text.  As in Go the text is read rune by
    rune, an ill-formed byte as [utf8.RuneError].  An iteration of a
    star that reads nothing is not repeated. *)
Fixpoint run (re : Regexp) (bt : bool) (s : list N)
         (k : bool -> list N -> bool) {struct re} : bool :=
  match re with
  | OpEmptyMatch => k bt s
  | OpLiteral r =>
      match s with
      | c :: s' => (c =? r)%N && k false s'
      | [] => false
      end
  | OpAnyCharNotNL =>
      match s with
      | c :: s' => negb (c =? 10)%N && k false s'
      | [] => false
      end
  | OpBeginText => bt && k bt s
  | OpEndText =>
      match s with
      | [] => k bt s
      | _ :: _ => false
      end
  | OpStar sub =>
      (fix star (fuel : nat) (bt : bool) (s : list N) {struct fuel} : bool :=
         match fuel with
         | O => k bt s
         | S fuel' =>
             k bt s
             || run sub bt s
                  (fun bt' s' => (length s' <? length s)%nat && star fuel' bt' s')
         end) (length s) bt s
  | OpConcat a b => run a bt s (fun bt' s' => run b bt' s' k)
  | OpAlternate a b => run a bt s k || run b bt s k
  end.

(** An unanchored search: a match may start at any rune of the text. *)
Fixpoint search (re : Regexp) (bt : bool) (s : list N) : bool :=
  run re bt s (fun _ _ => true)
  || match s with
     | [] => false
     | _ :: s' => search re false s'
     end.

Definition MatchString (re : Regexp) (s : string) : bool :=
  search re true (utf8.runes s).

End regexp.

(** A Go call returns, or it panics and takes the program down. *)
Inductive outcome (A : Type) : Type :=
| Returns (a : A)
| Panics (msg : string).
Arguments Returns {A} a.
Arguments Panics {A} msg.

(** ** [checkIfChildren] (lines 284-288) *)

Definition checkIfChildren (input target : string) : outcome bool :=
  let escapedString := regexp.QuoteMeta target in
  match regexp.Compile ("^" +:+ escapedString +:+ "(?:\/.*|)$") with
  | Err e => Panics e (* MustCompile *)
  | Ok r => Returns (regexp.MatchString r input)
  end.

(** ** Package [golang.org/x/net/html]: the document tree

    A node's [FirstChild]/[NextSibling] chain is the list of its
    children. *)

Module html.

Inductive NodeType : Type :=
| ErrorNode | TextNode | DocumentNode | ElementNode
| CommentNode | DoctypeNode.

Definition NodeType_eqb (a b : NodeType) : bool :=
  match a, b with
  | ErrorNode, ErrorNode | TextNode, TextNode | DocumentNode, DocumentNode
  | ElementNode, ElementNode | CommentNode, CommentNode
  | DoctypeNode, DoctypeNode => true
  | _, _ => false
  end.

Record Attribute : Type := mkAttribute {
  Namespace : string;
  Key : string;
  Val : string
}.

Inductive Node : Type :=
| mkNode (Type_ : NodeType) (Data : string) (Attr : list Attribute)
         (Children : list Node).

Definition Type_ (n : Node) := let 'mkNode t _ _ _ := n in t.
Definition Data (n : Node) := let 'mkNode _ d _ _ := n in d.
Definition Attr (n : Node) := let 'mkNode _ _ a _ := n in a.
Definition Children (n : Node) := let 'mkNode _ _ _ c := n in c.

Definition text (s : string) : Node := mkNode TextNode s [] [].
Definition element (tag : string) (attr : list Attribute) (cs : list Node) : Node :=
  mkNode ElementNode tag attr cs.
Definition a_href (href : string) (cs : list Node) : Node :=
  element "a" [mkAttribute "" "href" href] cs.
Definition document (body : list Node) : Node :=
  mkNode DocumentNode ""
    [] [element "html" [] [element "head" [] []; element "body" [] body]].

End html.

(** The message of the run-time panic on reading through a nil pointer. *)
Definition nilDeref : string :=
  "invalid memory address or nil pointer dereference".

(** ** [extractUrls] *)

(** How the body of the loop over a node's attributes ends. *)
Inductive loopexit : Type :=
| Continue (urls : list string)
| Break (urls : list string)
| LoopPanics (msg : string).

(** [for _, v := range vs { if x == v { continue } }]: the [continue]
    resumes this very loop, so the statement has no effect on what
    follows it. *)
Definition rangeContinue (vs : list string) (x : string) : unit :=
  fold_left (fun _ v => if String.eqb x v then tt else tt) vs tt.

Definition invalidValues : list string := ["#"; "/"].

Section extractUrls.

Variable parsedURL : url.URL.

Let targetScheme := url.Scheme parsedURL.
Let targetURL := url.Host parsedURL +:+ url.Path parsedURL.
Let domain := url.Host parsedURL.

(** The body of [if a.Key == "href" { ... }] (lines 220-271), in
    three stages. *)

(** Lines 257-271: scope check and append. *)
Definition scopeAndAppend (newUrl : string) (urls : list string) : loopexit :=
  match checkIfChildren newUrl targetURL with
  | Panics msg => LoopPanics msg
  | Returns false => Continue urls
  | Returns true =>
      (* avoid duplicates *)
      let _ := rangeContinue urls newUrl in
      (* remove / suffix to check if it's not equal target *)
      let newUrl := strings.TrimSuffix newUrl "/" in
      if negb (String.eqb newUrl targetURL)
      then Continue (urls ++ [targetScheme +:+ "://" +:+ newUrl])
      else Continue urls
  end.

(** Lines 247-255: relative path, query parameters removed. *)
Definition relativePath (newUrl : string) (urls : list string) : loopexit :=
  if strings.HasPrefix newUrl "/" then
    let newUrl := domain +:+ newUrl in
    match url.Parse newUrl with
    | Err _ => Break urls
    | Ok parsedNewURL => scopeAndAppend (url.Path parsedNewURL) urls
    end
  else scopeAndAppend newUrl urls.

(** Lines 220-245: invalid values and same-domain check. *)
Definition visitHref (val : string) (urls : list string) : loopexit :=
  let newUrl := val in
  (* check for invalid url values *)
  if strings.HasPrefix newUrl "#" then Continue urls
  else
    let _ := rangeContinue invalidValues newUrl in
    (* check for same domain *)
    if strings.HasPrefix newUrl "http" then
      match url.Parse newUrl with
      | Err _ => Break urls
      | Ok parsedNewURL =>
          if negb (String.eqb domain (url.Host parsedNewURL)) then Continue urls
          else relativePath (url.Path parsedNewURL) urls
      end
    else relativePath newUrl urls.

(** [for _, a := range n.Attr] *)
Fixpoint rangeAttr (attrs : list html.Attribute) (urls : list string)
  : outcome (list string) :=
  match attrs with
  | [] => Returns urls
  | a :: attrs' =>
      if String.eqb (html.Key a) "href" then
        match visitHref (html.Val a) urls with
        | Continue urls' => rangeAttr attrs' urls'
        | Break urls' => Returns urls'
        | LoopPanics msg => Panics msg
        end
      else rangeAttr attrs' urls
  end.

(** The closure [f]: it reads and extends the captured variable
    [urls], threaded here through the traversal. *)
Fixpoint f (n : html.Node) (urls : list string) {struct n}
  : outcome (list string) :=
  match n with
  | html.mkNode type data attr children =>
      match (if html.NodeType_eqb type html.ElementNode && String.eqb data "a"
             then rangeAttr attr urls else Returns urls) with
      | Panics msg => Panics msg
      | Returns urls =>
          (fix siblings (cs : list html.Node) (urls : list string)
             : outcome (list string) :=
             match cs with
             | [] => Returns urls
             | c :: cs' =>
                 match f c urls with
                 | Panics msg => Panics msg
                 | Returns urls' => siblings cs' urls'
                 end
             end) children urls
      end
  end.

(** [htlmDoc] is a pointer: [f(nil)] reads [n.Type] of a nil node.
    The [println] that opens the function is printed by the caller,
    [fetchAndFanOut]. *)
Definition extractUrls (htlmDoc : option html.Node)
  : outcome (list string * option error) :=
  match htlmDoc with
  | None => Panics nilDeref
  | Some doc =>
      match f doc [] with
      | Panics msg => Panics msg
      | Returns urls => Returns (urls, None)
      end
  end.

End extractUrls.


(** ** The world of the crawler

    The package-level variables [URLs] (the visited list) and [wg]
    (through the goroutines started and not yet run), the files of the
    mirror directory, and the trace of what the program did to the
    outside: what it printed, requested and wrote. *)

Inductive Event : Type :=
| EvPrint (msg : string)
| EvHttpGet (url : string)
| EvReadFile (name : string)
| EvMkdirAll (path : string)
| EvCreate (name : string)
| EvWrite (name : string) (data : string)
| EvGo (target : string).

Record World : Type := mkWorld {
  URLs : list string;
  files : gmap string string;
  trace : list Event;
  goroutines : list string
}.

(** A computation acts on the world and returns or panics. *)
Definition M (A : Type) : Type := World -> outcome A * World.

Definition ret {A : Type} (a : A) : M A := fun w => (Returns a, w).

Definition bind {A B : Type} (m : M A) (k : A -> M B) : M B :=
  fun w =>
    match m w with
    | (Returns a, w') => k a w'
    | (Panics msg, w') => (Panics msg, w')
    end.

Definition panic {A : Type} (msg : string) : M A := fun w => (Panics msg, w).

Declare Scope crawl_scope.
Delimit Scope crawl_scope with crawl.
Notation "x <- m ;; k" := (bind m (fun x => k))
  (at level 100, m at next level, right associativity) : crawl_scope.
Notation "m ;;; k" := (bind m (fun _ => k))
  (at level 100, right associativity) : crawl_scope.

(** The world after the events [es]. *)
Definition logged (w : World) (es : list Event) : World :=
  mkWorld (URLs w) (files w) (trace w ++ es) (goroutines w).

Definition emit (e : Event) : M unit :=
  fun w => (Returns tt, logged w [e]).

Definition print (msg : string) : M unit := emit (EvPrint msg).

(** [if err != nil { fmt.Printf(msg, err) }] *)
Definition printIfErr (msg : string) (err : option error) : M unit :=
  match err with
  | Some _ => print msg
  | None => ret tt
  end.

(** A [[]byte] is nil or holds bytes. *)
Definition bytes : Type := option string.

Definition string_of_bytes (b : bytes) : string :=
  match b with Some s => s | None => EmptyString end.

(** A HTTP response: its status code and what [io.ReadAll] gets from
    its body. *)
Record Response : Type := mkResponse {
  StatusCode : N;
  Body : result string
}.

Definition StatusOK : N := 200.

(** What the crawler does not decide: the flag [-dir], the network (the
    answer to a GET may depend on what happened before it), the HTML
    parser of [golang.org/x/net/html], and an operating system that may
    refuse to create a directory, to create a file or to write to it. *)
Record Env : Type := mkEnv {
  dir : string;
  http_Get : list Event -> string -> result Response;
  html_Parse : string -> result html.Node;
  os_MkdirAll : list Event -> string -> option error;
  os_Create : list Event -> string -> option error;
  file_Write : list Event -> string -> option error
}.

Section Crawler.

Open Scope crawl_scope.

Variable env : Env.

(** Lines 142-162.  The answer of the network is the one for the
    moment of the request, after ["downloading"] has been printed. *)
Definition download (url : string) : M (bytes * option error) :=
  print "downloading" ;;;
  fun w =>
    let resp := http_Get env (trace w) url in
    (emit (EvHttpGet url) ;;;
     match resp with
     | Err err => ret (None, Some err)
     | Ok resp =>
         if negb (StatusCode resp =? StatusOK)%N
         then ret (None, Some "invalid status code")
         else match Body resp with
              | Err err => ret (None, Some err)
              | Ok data => ret (Some data, None)
              end
     end) w.

(** Lines 164-174.  [os.ReadFile] fails when the mirror has no such
    file; the bytes it returns for a file, an empty one included, are
    not nil. *)
Definition checkForFile (filePath fileName : string) : M bytes :=
  emit (EvReadFile (filePath +:+ "/" +:+ fileName)) ;;;
  fun w =>
    match files w !! (filePath +:+ "/" +:+ fileName) with
    | None => (print "does not exist. downloading and saving..." ;;; ret None) w
    | Some data => (print "already exists" ;;; ret (Some data)) w
    end.

Definition setFile (name data : string) : M unit :=
  fun w => (Returns tt,
            mkWorld (URLs w) (<[name := data]> (files w)) (trace w) (goroutines w)).

(** Lines 176-193.  [os.Create] truncates the file; writing nil bytes
    leaves it empty. *)
Definition save (filePath fileName : string) (data : bytes) : M (option error) :=
  fun w =>
    match os_MkdirAll env (trace w) filePath with
    | Some err => (emit (EvMkdirAll filePath) ;;; ret (Some err)) w
    | None =>
        (emit (EvMkdirAll filePath) ;;;
         fun w =>
           let name := filePath +:+ "/" +:+ fileName in
           match os_Create env (trace w) name with
           | Some err => (emit (EvCreate name) ;;; ret (Some err)) w
           | None =>
               (emit (EvCreate name) ;;;
                setFile name EmptyString ;;;
                fun w =>
                  match file_Write env (trace w) name with
                  | Some err =>
                      (emit (EvWrite name (string_of_bytes data)) ;;;
                       ret (Some err)) w
                  | None =>
                      (emit (EvWrite name (string_of_bytes data)) ;;;
                       setFile name (string_of_bytes data) ;;;
                       ret None) w
                  end) w
           end) w
    end.

(** Lines 195-202. *)
Definition parseHTML (data : bytes) : M (option html.Node * option error) :=
  match html_Parse env (string_of_bytes data) with
  | Err err => ret (None, Some err)
  | Ok htmlDoc => ret (Some htmlDoc, None)
  end.

(** Lines 77-83: is [target] in [URLs]? *)
Definition isVisited (target : string) : M bool :=
  fun w => (Returns (existsb (String.eqb target) (URLs w)), w).

(** Lines 86-88: [URLs = append(URLs, target)] under the mutex. *)
Definition markVisited (target : string) : M unit :=
  fun w => (Returns tt,
            mkWorld (URLs w ++ [target]) (files w) (trace w) (goroutines w)).

(** [wg.Add(1); go func(targetUrl string) { defer wg.Done();
    process(targetUrl) }(u)]: the goroutine is started, it runs when
    the scheduler picks it. *)
Definition go (targetUrl : string) : M unit :=
  emit (EvGo targetUrl) ;;;
  fun w => (Returns tt,
            mkWorld (URLs w) (files w) (trace w) (goroutines w ++ [targetUrl])).

Fixpoint rangeGo (urls : list string) : M unit :=
  match urls with
  | [] => ret tt
  | u :: urls' => go u ;;; rangeGo urls'
  end.

(** [*parsedURL]: reading a field through a nil pointer panics. *)
Definition deref (parsed : result url.URL) : M url.URL :=
  match parsed with
  | Ok u => ret u
  | Err _ => panic nilDeref
  end.

(** Lines 91-97: where the page of [parsedURL] is kept in the
    mirror, as directory and file name. *)
Definition pageFile (parsedURL : url.URL) : string * string :=
  let fp := filepath.Join (dir env) (url.Path parsedURL) in
  let fileName := path.Base (url.Path parsedURL) in
  (* call it index in case it's the target *)
  let fileName := if String.eqb fileName "." then "index" else fileName in
  (fp, fileName +:+ ".html").

Definition pagePath (parsedURL : url.URL) : string :=
  fst (pageFile parsedURL) +:+ "/" +:+ snd (pageFile parsedURL).

(** Lines 101-136: download and save unless the page was found, then
    parse, extract and start a goroutine for each link. *)
Definition fetchAndFanOut (target : string) (parsedURL : url.URL)
           (savedContent : bytes) : M unit :=
  let '(fp, fileName) := pageFile parsedURL in
  content <-
    match savedContent with
    | None =>
        (* download page *)
        r <- download target ;;
        let '(content, err) := r in
        printIfErr "error downloading the target" err ;;;
        (* save page *)
        err <- save fp fileName content ;;
        printIfErr "error saving the target" err ;;;
        ret content
    | Some _ => ret savedContent
    end ;;
  (* parse page content *)
  r <- parseHTML content ;;
  let '(htmlContent, err) := r in
  printIfErr "error parsing html content" err ;;;
  (* extract urls from page *)
  print "extracting urls from" ;;;
  match extractUrls parsedURL htmlContent with
  | Panics msg => panic msg
  | Returns (urls, err) =>
      printIfErr "error extracting urls" err ;;;
      (* call process() for each found url recursively *)
      rangeGo urls
  end.

(** Lines 66-83: trim, parse, rebuild the target and look it up in
    [URLs]. *)
Definition parseAndCheck (target : string) : M (string * url.URL * bool) :=
  (* remove "/" suffix to avoid duplicating it *)
  let target := strings.TrimSuffix target "/" in
  let parsed := url.Parse target in
  printIfErr "error parsing the target"
    (match parsed with Err err => Some err | Ok _ => None end) ;;;
  (* parsing the target *)
  parsedURL <- deref parsed ;;
  let target :=
    url.Scheme parsedURL +:+ "://" +:+ url.Host parsedURL +:+ url.Path parsedURL in
  ok <- isVisited target ;;
  ret (target, parsedURL, ok).

(** [process], lines 66-140.  The four stages are the places where a
    goroutine reads or writes what it shares with the others. *)
Definition process (target : string) : M (option error) :=
  r <- parseAndCheck target ;;
  let '(target, parsedURL, ok) := r in
  (if negb ok
   then
     markVisited target ;;;
     savedContent <- checkForFile (fst (pageFile parsedURL))
                                  (snd (pageFile parsedURL)) ;;
     fetchAndFanOut target parsedURL savedContent
   else ret tt) ;;;
  ret None.

(** Lines 68-75 alone: the key under which [process] records a URL. *)
Definition normalize (target : string) : option string :=
  let target := strings.TrimSuffix target "/" in
  match url.Parse target with
  | Err _ => None
  | Ok parsedURL =>
      Some (url.Scheme parsedURL +:+ "://" +:+ url.Host parsedURL
            +:+ url.Path parsedURL)
  end.

(** *** Goroutines

    A goroutine running [process] is followed from one access to the
    shared variables to the next: it has been called; it has run the
    loop over [URLs]; it has appended to [URLs]; it has looked for the
    saved page; it is done. *)
Inductive goroutine : Type :=
| Called (target : string)
| Checked (target : string) (parsedURL : url.URL) (ok : bool)
| Marked (target : string) (parsedURL : url.URL)
| Looked (target : string) (parsedURL : url.URL) (savedContent : bytes)
| Done.

Definition next (g : goroutine) : M goroutine :=
  match g with
  | Called target =>
      r <- parseAndCheck target ;;
      let '(target, parsedURL, ok) := r in
      ret (Checked target parsedURL ok)
  | Checked target parsedURL ok =>
      if negb ok
      then markVisited target ;;; ret (Marked target parsedURL)
      else ret Done
  | Marked target parsedURL =>
      savedContent <- checkForFile (fst (pageFile parsedURL))
                                   (snd (pageFile parsedURL)) ;;
      ret (Looked target parsedURL savedContent)
  | Looked target parsedURL savedContent =>
      fetchAndFanOut target parsedURL savedContent ;;; ret Done
  | Done => ret Done
  end.

(** The running program: the world, its goroutines (the first one
    runs [main]), and the panic that ended it, if one did. *)
Record Program : Type := mkProgram {
  world : World;
  running : list goroutine;
  crashed : option string
}.

Definition started (w : World) : World :=
  mkWorld (URLs w) (files w) (trace w) [].

(** The scheduler lets goroutine [i] make its next move; the
    goroutines it starts with [go] join the running ones. *)
Definition step (i : nat) (c : Program) : Program :=
  match crashed c, running c !! i with
  | None, Some g =>
      match next g (world c) with
      | (Returns g', w') =>
          mkProgram (started w')
                    (<[i := g']> (running c) ++ map Called (goroutines w'))
                    None
      | (Panics msg, w') => mkProgram w' (running c) (Some msg)
      end
  | _, _ => c
  end.

Definition runSchedule (schedule : list nat) (c : Program) : Program :=
  fold_left (fun c i => step i c) schedule c.

(** [main] from line 56 on, with [wg.Wait()] left to the scheduler:
    the program starts with the one goroutine that calls
    [process(target)]. *)
Definition start (target : string) (w : World) : Program :=
  mkProgram (started w) [Called target] None.

(** Lines 56-59 of [main]. *)
Definition mainCall (target : string) : M unit :=
  err <- process target ;;
  match err with
  | Some e => panic e
  | None => ret tt
  end.

(** The number of GET requests in a trace. *)
Fixpoint fetches (t : list Event) : nat :=
  match t with
  | [] => O
  | EvHttpGet _ :: t' => S (fetches t')
  | _ :: t' => fetches t'
  end.

(** The number of calls that create or change something in the
    mirror directory. *)
Fixpoint saves (t : list Event) : nat :=
  match t with
  | [] => O
  | (EvMkdirAll _ | EvCreate _ | EvWrite _ _) :: t' => S (saves t')
  | _ :: t' => saves t'
  end.

End Crawler.

(** ** Vocabulary of the statements about [process] *)

Section process_vocabulary.

Variable env : Env.

(** The key of a parsed URL in [URLs] (line 75). *)
Definition key (p : url.URL) : string :=
  url.Scheme p +:+ "://" +:+ url.Host p +:+ url.Path p.

(** [m] returns in every world. *)
Definition returns {A : Type} (m : M A) : Prop :=
  forall w, exists a w', m w = (Returns a, w').

(** The world after the events [es] and the start of a goroutine for
    each of [urls]. *)
Definition spawned (w : World) (es : list Event) (urls : list string) : World :=
  mkWorld (URLs w) (files w) (trace w ++ es ++ map EvGo urls) (goroutines w ++ urls).

(** The mirror [F] holds the page of [p], and the links of that page
    are among [S]. *)
Definition inMirror (F : gmap string string) (S : list string) (p : url.URL) : Prop :=
  exists c,
    F !! pagePath env p = Some c
    /\ forall doc urls,
         html_Parse env c = Ok doc ->
         extractUrls p (Some doc) = Returns (urls, None) ->
         Forall (fun u => In u S) urls.

(** A populated mirror: [F] holds the page of every URL of [S], and the
    links of each of these pages lead back into [S]. *)
Definition populated (F : gmap string string) (S : list string) : Prop :=
  Forall (fun raw =>
            exists p,
              url.Parse (strings.TrimSuffix raw "/") = Ok p /\ inMirror F S p) S.

(** A goroutine that works on a URL of a populated mirror. *)
Definition served (F : gmap string string) (S : list string) (g : goroutine) : Prop :=
  match g with
  | Called raw => In raw S
  | Checked _ p _ | Marked _ p => inMirror F S p
  | Looked _ p savedContent =>
      inMirror F S p /\ savedContent = F !! pagePath env p
  | Done => True
  end.

(** A program that has left the mirror as it was, [F], and has made [n]
    requests and [m] saves. *)
Definition offlineRun (F : gmap string string) (n m : nat) (S : list string)
           (c : Program) : Prop :=
  files (world c) = F
  /\ fetches (trace (world c)) = n
  /\ saves (trace (world c)) = m
  /\ goroutines (world c) = []
  /\ Forall (served F S) (running c).

(** The contract of [download] for a given set of accepted status
    codes: it returns, with an error exactly when the request failed,
    the status is not accepted or the body could not be read, and with
    the bytes of the body otherwise. *)
Definition fetchFails (accepted : N -> bool) (answer : result Response) : bool :=
  match answer with
  | Err _ => true
  | Ok resp =>
      negb (accepted (StatusCode resp))
      || match Body resp with Err _ => true | Ok _ => false end
  end.

Definition downloadContract (accepted : N -> bool) : Prop :=
  forall url w,
    exists data err w',
      download env url w = (Returns (data, err), w')
      /\ let answer := http_Get env (trace w ++ [EvPrint "downloading"]) url in
         (err <> None <-> fetchFails accepted answer = true)
         /\ (err = None ->
             exists resp body,
               answer = Ok resp /\ Body resp = Ok body /\ data = Some body).

End process_vocabulary.

(** [m] adds [n] to the events that [count] counts. *)
Definition adds {A : Type} (count : list Event -> nat) (n : nat) (m : M A) : Prop :=
  forall w, count (trace (snd (m w))) = count (trace w) + n.

(** The number of GET requests for [url] in a trace. *)
Fixpoint requestsFor (url : string) (t : list Event) : nat :=
  match t with
  | [] => O
  | EvHttpGet u :: t' => (if String.eqb u url then 1 else 0) + requestsFor url t'
  | _ :: t' => requestsFor url t'
  end.

Definition success2xx (code : N) : bool := ((200 <=? code) && (code <? 300))%N.

Definition statusOK (code : N) : bool := (code =? StatusOK)%N.

(** ** Vocabulary of the statements about [extractUrls] *)

(** The attributes of the [<a>] elements of a tree, in the order of the
    traversal. *)
Fixpoint anchorsOf (n : html.Node) : list (list html.Attribute) :=
  match n with
  | html.mkNode type data attr children =>
      (if html.NodeType_eqb type html.ElementNode && String.eqb data "a"
       then [attr] else [])
      ++ (fix siblings (cs : list html.Node) : list (list html.Attribute) :=
            match cs with
            | [] => []
            | c :: cs' => anchorsOf c ++ siblings cs'
            end) children
  end.

(** The values of the [href] attributes among [attrs]. *)
Fixpoint hrefValues (attrs : list html.Attribute) : list string :=
  match attrs with
  | [] => []
  | a :: attrs' =>
      if String.eqb (html.Key a) "href" then html.Val a :: hrefValues attrs'
      else hrefValues attrs'
  end.

(** [rangeAttr] on the [href] values alone, and over a sequence of
    anchors. *)
Fixpoint rangeHrefs (p : url.URL) (vals : list string) (urls : list string)
  : outcome (list string) :=
  match vals with
  | [] => Returns urls
  | v :: vals' =>
      match visitHref p v urls with
      | Continue urls' => rangeHrefs p vals' urls'
      | Break urls' => Returns urls'
      | LoopPanics msg => Panics msg
      end
  end.

Fixpoint rangeAnchors (p : url.URL) (anchors : list (list string))
         (urls : list string) : outcome (list string) :=
  match anchors with
  | [] => Returns urls
  | vals :: anchors' =>
      match rangeHrefs p vals urls with
      | Panics msg => Panics msg
      | Returns urls' => rangeAnchors p anchors' urls'
      end
  end.

(** ** Inputs of the examples *)

Definition features : url.URL :=
  url.mkURL "https" "" None "github.com" "/features" false false "" "".

Definition featuresA : url.URL :=
  url.mkURL "https" "" None "github.com" "/features/a" false false "" "".

(** A page with the five anchors of the extraction example. *)
Definition page5 : html.Node :=
  html.document
    [html.a_href "#top" [html.text "top"];
     html.a_href "/" [html.text "home"];
     html.element "div" []
       [html.a_href "/features/a" [html.text "a"];
        html.a_href "https://other.com/x" []];
     html.a_href "https://github.com/features/b" []].

(** A page that links twice to the same page. *)
Definition pageTwice : html.Node :=
  html.document
    [html.a_href "/features/a" [html.text "first"];
     html.element "p" [] [html.a_href "/features/a" [html.text "second"]]].

Definition newline : string := String (ascii_of_N 10) EmptyString.

(** A page with a link below the scope whose path holds an escaped
    newline. *)
Definition pageNewline : html.Node :=
  html.document [html.a_href "/features/a%0Ab" []].

Definition pageOne : html.Node := html.document [html.a_href "/x" []].

(** Environments: a network that answers every request with one
    response, a parser that reads every text as one document, an
    operating system that never refuses. *)
Definition answering (resp : result Response) : list Event -> string -> result Response :=
  fun _ _ => resp.

Definition parsingAs (doc : result html.Node) : string -> result html.Node :=
  fun _ => doc.

Definition neverFails : list Event -> string -> option error := fun _ _ => None.

Definition liveEnv : Env :=
  mkEnv "./data" (answering (Ok (mkResponse 200 (Ok "<html></html>"))))
        (parsingAs (Ok (html.document []))) neverFails neverFails neverFails.

Definition noContentEnv : Env :=
  mkEnv "./data" (answering (Ok (mkResponse 204 (Ok ""))))
        (parsingAs (Ok (html.document []))) neverFails neverFails neverFails.

Definition onePageEnv : Env :=
  mkEnv "./data" (answering (Ok (mkResponse 200 (Ok "<a href=/x>"))))
        (parsingAs (Ok pageOne)) neverFails neverFails neverFails.

Definition emptyWorld : World := mkWorld [] ∅ [] [].

(** Two goroutines called with the same URL. *)
Definition twoCalls : Program :=
  mkProgram emptyWorld
            [Called "https://github.com/features/a";
             Called "https://github.com/features/a"] None.

(** A mirror of a site of two pages, [/docs] linking to [/docs/a] and to
    [/blog], read without a network. *)
Definition docsPage : html.Node :=
  html.document [html.a_href "/docs/a" []; html.a_href "/blog" []].

Definition docsSite : list string :=
  ["https://example.com/docs"; "https://example.com/docs/a"].

Definition docsParser (s : string) : result html.Node :=
  if String.eqb s "docs" then Ok docsPage else Ok (html.document []).

Definition offlineEnv : Env :=
  mkEnv "./data" (answering (Err "dial tcp: network is unreachable"))
        docsParser neverFails neverFails neverFails.

Definition docsMirror : gmap string string :=
  <["data/docs/docs.html" := "docs"]> (<["data/docs/a/a.html" := "a"]> ∅).

Definition docsWorld : World := mkWorld [] docsMirror [] [].

(** ** Vocabulary of the statements about [checkIfChildren]

    The runes a quoted string decodes to, the expression the crawler's
    pattern compiles to, and what it accepts. *)

Section regexp_vocabulary.
Import regexp.

Definition specialRune (c : N) : bool :=
  existsb (N.eqb c) [92; 46; 43; 42; 63; 40; 41; 124; 91; 93; 123; 125; 94; 36]%N.

Definition quoteRunes (rs : list N) : list N :=
  flat_map (fun c => if specialRune c then [92; c] else [c])%N rs.

Definition leadBits (sz : utf8.width) (b0 : ascii) : N :=
  match sz with
  | utf8.W2 => N_of_ascii b0 mod 32
  | utf8.W3 => N_of_ascii b0 mod 16
  | utf8.W4 => N_of_ascii b0 mod 8
  end%N.

Fixpoint allhigh (s : string) : Prop :=
  match s with
  | EmptyString => True
  | String b s' => (128 <= N_of_ascii b)%N /\ allhigh s'
  end.

Definition childGroup : Regexp :=
  OpAlternate (OpConcat (OpLiteral 47) (OpStar OpAnyCharNotNL)) OpEmptyMatch.

Definition childrenRegexp (rs : list N) : Regexp :=
  concat (OpEndText :: childGroup :: rev (map OpLiteral rs) ++ [OpBeginText]).

Fixpoint stripPrefix (rs s : list N) : option (list N) :=
  match rs, s with
  | [], _ => Some s
  | r :: rs', c :: s' => if (c =? r)%N then stripPrefix rs' s' else None
  | _ :: _, [] => None
  end.

Definition noNewline (s : list N) : bool := forallb (fun c => negb (c =? 10)%N) s.

Definition childOf (rs s : list N) : bool :=
  match stripPrefix rs s with
  | Some [] => true
  | Some (c :: tl) => (c =? 47)%N && noNewline tl
  | None => false
  end.

Definition starLoop (runsub : bool -> list N -> (bool -> list N -> bool) -> bool)
           (k : bool -> list N -> bool) : nat -> bool -> list N -> bool :=
  fix star (fuel : nat) (bt : bool) (s : list N) {struct fuel} : bool :=
    match fuel with
    | O => k bt s
    | S fuel' =>
        k bt s
        || runsub bt s (fun bt' s' => (length s' <? length s)%nat && star fuel' bt' s')
    end.

End regexp_vocabulary.

(** ** [main] (lines 29-64)

    The two flags and the files that the mirror directory holds when
    the program starts are the arguments.  [log.Fatal] ends the program
    before anything is processed; otherwise [dir] is set, nothing has
    been visited, and the program starts with the goroutine that calls
    [process(target)] (line 56).  The goroutine of lines 47-54 acts only
    on an interrupt from outside and is left out, and so is the last
    print (line 63), which follows [wg.Wait()]. *)

Inductive startup : Type :=
| Fatal (msg : string)
| Started (env : Env) (c : Program).

Definition withDir (env : Env) (d : string) : Env :=
  mkEnv d (http_Get env) (html_Parse env) (os_MkdirAll env) (os_Create env)
        (file_Write env).

Definition main (env : Env) (target dirFlag : string) (disk : gmap string string)
  : startup :=
  if String.eqb target "" then Fatal "url flag is required"
  else if negb (strings.HasPrefix target "http")
  then Fatal "invalid url provided. valid ex.: https://github.com"
  else
    let w := mkWorld [] disk [] [] in
    if String.eqb dirFlag ""
    then Started (withDir env "./data")
                 (start target
                    (logged w [EvPrint "dir flag is empty. using default ./data"]))
    else Started (withDir env dirFlag) (start target w).

(** ** Vocabulary of the statements about links, growth and requests *)

(** [targetURL] of [extractUrls] (line 211). *)
Definition scopeOf (p : url.URL) : string := url.Host p +:+ url.Path p.




(** The page of [pageOne] inside a list, its anchor with a second
    attribute and a text. *)
Definition pageOneNested : html.Node :=
  html.document
    [html.text "see";
     html.element "ul" []
       [html.element "li" []
          [html.element "a" [html.mkAttribute "" "class" "link";
                             html.mkAttribute "" "href" "/x"]
                        [html.text "x"]]]].

(** [w'] has the visited list of [w] and every file of [w]. *)
Definition kept (w w' : World) : Prop :=
  URLs w' = URLs w
  /\ forall name, is_Some (files w !! name) -> is_Some (files w' !! name).

Definition keeps {A : Type} (m : M A) : Prop := forall w, kept w (snd (m w)).

(** [w'] has the visited list of [w], possibly longer, and every file
    of [w]. *)
Definition grown (w w' : World) : Prop :=
  (exists more, URLs w' = URLs w ++ more)
  /\ forall name, is_Some (files w !! name) -> is_Some (files w' !! name).

(** [m] leaves the files as they are. *)
Definition sameFiles {A : Type} (m : M A) : Prop :=
  forall w, files (snd (m w)) = files w.

(** The trace at the moment of the request that [process], called in
    [w] for a new page [p] that the mirror does not hold, makes. *)
Definition atRequest (env : Env) (p : url.URL) (w : World) : list Event :=
  trace w ++ [EvReadFile (pagePath env p);
              EvPrint "does not exist. downloading and saving...";
              EvPrint "downloading"].

(** An operating system that never refuses. *)
Definition cooperative (env : Env) : Prop :=
  (forall t n, os_MkdirAll env t n = None)
  /\ (forall t n, os_Create env t n = None)
  /\ (forall t n, file_Write env t n = None).

(** How often [u] has been appended to [URLs]. *)
Fixpoint claims (u : string) (l : list string) : nat :=
  match l with
  | [] => O
  | x :: l' => (if String.eqb x u then 1 else 0) + claims u l'
  end.

(** A goroutine that has appended [u] and has not yet reached the
    place where it may request it. *)
Definition owes (u : string) (g : goroutine) : nat :=
  match g with
  | Marked t _ | Looked t _ _ => if String.eqb t u then 1 else 0
  | _ => O
  end.

Fixpoint owed (u : string) (gs : list goroutine) : nat :=
  match gs with
  | [] => O
  | g :: gs' => owes u g + owed u gs'
  end.

(** The requests for [u] made so far, and those that the running
    goroutines may still make without appending, are covered by the
    entries of [u] in [URLs]. *)
Definition claimedFirst (u : string) (c : Program) : Prop :=
  requestsFor u (trace (world c))
  + match crashed c with None => owed u (running c) | Some _ => O end
  <= claims u (URLs (world c)).

(** What the next move of a goroutine requests and appends. *)
Definition requested (u : string) (g : goroutine) : nat :=
  match g with
  | Looked t _ None => if String.eqb t u then 1 else 0
  | _ => O
  end.

Definition appended (g : goroutine) : list string :=
  match g with
  | Checked t _ false => [t]
  | _ => []
  end.

(** ** Vocabulary of the statements about hosts with a port *)

(** [P] holds of every byte of [s]. *)
Fixpoint allBytes (P : ascii -> bool) (s : string) : bool :=
  match s with
  | EmptyString => true
  | String c s' => P c && allBytes P s'
  end.

(** The bytes of a host name or an IPv4 address. *)
Definition hostByte (c : ascii) : bool :=
  url.isletter c || url.isdigit c || url.oneof c "-.".

(** A host with a port: [name:digits]. *)
Definition hasPort (host : string) : Prop :=
  exists name port,
    host = name +:+ ":" +:+ port
    /\ name <> "" /\ allBytes hostByte name = true
    /\ port <> "" /\ url.alldigits port = true.

(** A [href] that is a fragment, an absolute URL or a path from the
    root: the three kinds that lines 223-255 take apart. *)
Definition siteLink (val : string) : bool :=
  strings.HasPrefix val "#" || strings.HasPrefix val "http" || strings.HasPrefix val "/".

(** The body of the loop has left [urls] as it was. *)
Definition appendsNothing (urls : list string) (e : loopexit) : Prop :=
  match e with
  | Continue urls' | Break urls' => urls' = urls
  | LoopPanics _ => True
  end.

(** A page of a site served on a port, with links into the site. *)
Definition localSite : url.URL :=
  url.mkURL "http" "" None "localhost:8080" "/docs" false false "" "".

Definition pageLocal : html.Node :=
  html.document
    [html.a_href "/docs/a" [];
     html.a_href "http://localhost:8080/docs/b" [];
     html.a_href "#top" []].

(** A byte that is not UTF-8. *)
Definition byte255 : string := String (ascii_of_N 255) EmptyString.

(** * Properties *)

(** ** The library functions on the crawler's inputs *)

Section library_examples.
Import url.

Example Parse_features :
  Parse "https://github.com/features"
  = Ok (mkURL "https" "" None "github.com" "/features" false false "" "").
Proof. reflexivity. Qed.

Example Parse_query_fragment :
  Parse "https://github.com/features/?tab=1#top"
  = Ok (mkURL "https" "" None "github.com" "/features/" false false "tab=1" "top").
Proof. reflexivity. Qed.

Example Parse_rootless :
  Parse "github.com/features/a"
  = Ok (mkURL "" "" None "" "github.com/features/a" false false "" "").
Proof. reflexivity. Qed.

Example Parse_bad_escape :
  Parse "http://example.com/%zz" = Err "invalid URL escape".
Proof. reflexivity. Qed.

Example Parse_port_as_scheme :
  Parse "localhost:8080/docs"
  = Ok (mkURL "localhost" "8080/docs" None "" "" false false "" "").
Proof. reflexivity. Qed.

Example Base_features : path.Base "/features" = "features".
Proof. reflexivity. Qed.

Example Base_empty : path.Base "" = ".".
Proof. reflexivity. Qed.

Example Base_dir : path.Base "/features/a/" = "a".
Proof. reflexivity. Qed.

Example Base_root : path.Base "//" = "/".
Proof. reflexivity. Qed.

Example Join_data : filepath.Join "./data" "/features/a" = "data/features/a".
Proof. reflexivity. Qed.

Example Join_root : filepath.Join "./data" "" = "data".
Proof. reflexivity. Qed.

Example Join_dotdot : filepath.Join "./data" "/a/../../b//c/." = "b/c".
Proof. reflexivity. Qed.

Example pagePath_features : pagePath liveEnv features = "data/features/features.html".
Proof. reflexivity. Qed.

Example pagePath_root :
  pagePath liveEnv (url.mkURL "https" "" None "github.com" "" false false "" "")
  = "data/index.html".
Proof. reflexivity. Qed.

End library_examples.

(** ** [checkIfChildren]: what the compiled pattern accepts *)

Section checkIfChildren_runs.
Import regexp.

Lemma special_ascii b : regexp.special b = true -> (N_of_ascii b < 128)%N.
Proof.
  destruct b as [[] [] [] [] [] [] [] []]; vm_compute; intros H; congruence.
Qed.

Lemma not_special_high b : (128 <= N_of_ascii b)%N -> regexp.special b = false.
Proof.
  intros H. destruct (regexp.special b) eqn:E; [|reflexivity].
  apply special_ascii in E. lia.
Qed.

Lemma special_rune b : regexp.special b = specialRune (N_of_ascii b).
Proof.
  destruct b as [[] [] [] [] [] [] [] []]; vm_compute; reflexivity.
Qed.

Lemma first_lead b0 sz lo hi :
  utf8.first b0 = Some (sz, lo, hi) ->
  (128 <= lo)%N /\ (128 <= N_of_ascii b0)%N.
Proof.
  unfold utf8.first.
  repeat (match goal with |- context [if ?c then _ else _] => destruct c eqn:? end);
    intros [= <- <- <-]; split; try lia.
  all: repeat match goal with H : (_ && _)%bool = true |- _ => apply andb_prop in H; destruct H end;
       repeat match goal with H : (_ <=? _)%N = true |- _ => apply N.leb_le in H
                         | H : (_ =? _)%N = true |- _ => apply N.eqb_eq in H end; lia.
Qed.

Lemma lead_bits b0 sz lo hi :
  utf8.first b0 = Some (sz, lo, hi) ->
  match sz with
  | utf8.W2 => (2 <= leadBits sz b0)%N
  | utf8.W3 => (1 <= leadBits sz b0)%N \/ (lo = 160%N /\ hi = 191%N)
  | utf8.W4 => (1 <= leadBits sz b0)%N \/ (lo = 144%N /\ hi = 191%N)
  end.
Proof.
  destruct b0 as [[] [] [] [] [] [] [] []]; vm_compute; intros H; try discriminate H;
    injection H as <- <- <-; try (intros; discriminate);
    try (left; intros; discriminate); right; split; reflexivity.
Qed.

Lemma low6_160 b : utf8.inrange 160 191 b = true -> (32 <= utf8.low6 b)%N.
Proof.
  destruct b as [[] [] [] [] [] [] [] []]; vm_compute; intros H; try discriminate H;
    intros; discriminate.
Qed.

Lemma low6_144 b : utf8.inrange 144 191 b = true -> (16 <= utf8.low6 b)%N.
Proof.
  destruct b as [[] [] [] [] [] [] [] []]; vm_compute; intros H; try discriminate H;
    intros; discriminate.
Qed.

Lemma inrange_high lo hi b :
  (128 <= lo)%N -> utf8.inrange lo hi b = true -> (128 <= N_of_ascii b)%N.
Proof.
  unfold utf8.inrange. intros Hlo H. apply andb_prop in H as [H _].
  apply N.leb_le in H. lia.
Qed.

Lemma QuoteMeta_high chunk s :
  allhigh chunk -> regexp.QuoteMeta (chunk +:+ s) = chunk +:+ regexp.QuoteMeta s.
Proof.
  induction chunk as [|b chunk IH]; simpl; [reflexivity|].
  intros [Hb Hc]. rewrite (not_special_high _ Hb), IH by exact Hc. reflexivity.
Qed.

(** A well-formed multi-byte encoding at the head of a string. *)

Lemma decode_multibyte b0 s1 c l :
  (N_of_ascii b0 <? 128)%N = false ->
  utf8.decode (String b0 s1) = Some c :: l ->
  exists chunk s',
    String b0 s1 = chunk +:+ s' /\ (String.length s' < String.length (String b0 s1))%nat
    /\ allhigh chunk /\ (128 <= c)%N
    /\ forall q, utf8.decode (chunk +:+ q) = Some c :: utf8.decode q.
Proof.
  intros Hb0. simpl. rewrite Hb0.
  destruct (utf8.first b0) as [[[sz lo] hi]|] eqn:Hf; [|discriminate].
  pose proof (first_lead _ _ _ _ Hf) as [Hlo Hhigh0].
  pose proof (lead_bits _ _ _ _ Hf) as Hbits.
  destruct s1 as [|b1 s2]; [discriminate|].
  destruct (utf8.inrange lo hi b1) eqn:H1; simpl; [|discriminate].
  pose proof (inrange_high _ _ _ Hlo H1) as Hhigh1.
  destruct sz.
  - intros [= <- <-]. exists (String b0 (String b1 "")), s2.
    simpl. repeat split; try lia; try exact Hhigh0; try exact Hhigh1.
    + unfold leadBits in Hbits. lia.
    + intros q. rewrite Hb0, Hf, H1. reflexivity.
  - destruct s2 as [|b2 s3]; [discriminate|].
    destruct (utf8.inrange 128 191 b2) eqn:H2; simpl; [|discriminate].
    pose proof (inrange_high 128 _ _ (N.le_refl _) H2) as Hhigh2.
    intros [= <- <-]. exists (String b0 (String b1 (String b2 ""))), s3.
    simpl. repeat split; try lia; try exact Hhigh0; try exact Hhigh1; try exact Hhigh2.
    + unfold leadBits in Hbits. destruct Hbits as [Hb| [-> ->]].
      * generalize dependent (N_of_ascii b0 mod 16)%N. intros; lia.
      * apply low6_160 in H1. generalize dependent (N_of_ascii b0 mod 16)%N. intros; lia.
    + intros q. rewrite Hb0, Hf, H1, H2. reflexivity.
  - destruct s2 as [|b2 s3]; [discriminate|].
    destruct (utf8.inrange 128 191 b2) eqn:H2; simpl; [|discriminate].
    pose proof (inrange_high 128 _ _ (N.le_refl _) H2) as Hhigh2.
    destruct s3 as [|b3 s4]; [discriminate|].
    destruct (utf8.inrange 128 191 b3) eqn:H3; simpl; [|discriminate].
    pose proof (inrange_high 128 _ _ (N.le_refl _) H3) as Hhigh3.
    intros [= <- <-]. exists (String b0 (String b1 (String b2 (String b3 "")))), s4.
    simpl. repeat split; try lia; try exact Hhigh0; try exact Hhigh1;
      try exact Hhigh2; try exact Hhigh3.
    + unfold leadBits in Hbits. destruct Hbits as [Hb| [-> ->]].
      * generalize dependent (N_of_ascii b0 mod 8)%N. intros; lia.
      * apply low6_144 in H1. generalize dependent (N_of_ascii b0 mod 8)%N. intros; lia.
    + intros q. rewrite Hb0, Hf, H1, H2, H3. reflexivity.
Qed.

Lemma decode_ascii b s :
  (N_of_ascii b <? 128)%N = true ->
  utf8.decode (String b s) = Some (N_of_ascii b) :: utf8.decode s.
Proof. intros H. simpl. rewrite H. reflexivity. Qed.

Lemma specialRune_ascii c : specialRune c = true -> (c < 128)%N.
Proof.
  unfold specialRune. simpl. intros H.
  repeat (apply orb_prop in H as [H|H]; [apply N.eqb_eq in H; lia|]).
  discriminate.
Qed.

Lemma append_cons c (a b : string) : String c a +:+ b = String c (a +:+ b).
Proof. reflexivity. Qed.

Lemma append_nil (b : string) : "" +:+ b = b.
Proof. reflexivity. Qed.

Lemma append_assoc (a b c : string) : (a +:+ b) +:+ c = a +:+ (b +:+ c).
Proof.
  induction a as [|x a IH]; [reflexivity|].
  rewrite !append_cons, IH. reflexivity.
Qed.

Lemma decode_QuoteMeta n : forall t rest,
  (String.length t <= n)%nat ->
  utf8.ValidString t = true ->
  utf8.decode (regexp.QuoteMeta t +:+ rest)
  = map Some (quoteRunes (utf8.runes t)) ++ utf8.decode rest.
Proof.
  induction n as [|n IH]; intros t rest Hlen Hv.
  - destruct t; [reflexivity | simpl in Hlen; lia].
  - destruct t as [|b0 s1]; [reflexivity|].
    unfold utf8.ValidString, utf8.runes in *.
    destruct (N_of_ascii b0 <? 128)%N eqn:Hb0.
    + simpl in Hlen. rewrite (decode_ascii _ _ Hb0) in *.
      simpl in Hv.
      simpl. rewrite <- special_rune.
      destruct (regexp.special b0) eqn:Hs; simpl.
      * rewrite Hb0. f_equal. f_equal. apply IH; [lia | exact Hv].
      * rewrite Hb0. f_equal. apply IH; [lia | exact Hv].
    + destruct (utf8.decode (String b0 s1)) as [|[c|] l] eqn:Hd.
      * simpl in Hd. rewrite Hb0 in Hd.
        repeat match type of Hd with
               | match ?x with _ => _ end = _ => destruct x
               | (if ?x then _ else _) = _ => destruct x
               end; discriminate.
      * destruct (decode_multibyte _ _ _ _ Hb0 Hd)
          as (chunk & s' & Heq & Hlt & Hhigh & Hc & Hdec).
        rewrite Heq in Hd |- *. rewrite Hdec in Hd. injection Hd as <-.
        rewrite QuoteMeta_high by exact Hhigh.
        rewrite append_assoc, Hdec.
        simpl in Hv. simpl.
        destruct (specialRune c) eqn:Hsp; [apply specialRune_ascii in Hsp; lia|].
        simpl. f_equal. apply IH; [|exact Hv].
        simpl in Hlen, Hlt. lia.
      * simpl in Hv. discriminate.
Qed.

Lemma parse_literal r t cur alts stack :
  specialRune r = false ->
  parse (r :: t) cur alts stack = parse t (OpLiteral r :: cur) alts stack.
Proof.
  unfold specialRune. simpl. intros H.
  repeat (apply orb_false_elim in H as [? H]).
  simpl.
  repeat match goal with E : (r =? _)%N = false |- _ => rewrite E; clear E end.
  reflexivity.
Qed.

Lemma parse_escaped r t cur alts stack :
  specialRune r = true ->
  parse (92%N :: r :: t) cur alts stack = parse t (OpLiteral r :: cur) alts stack.
Proof.
  unfold specialRune. simpl. intros H.
  repeat (apply orb_prop in H as [H|H]; [apply N.eqb_eq in H; subst r; reflexivity|]).
  discriminate.
Qed.

Lemma parse_quoted rs : forall rest cur alts stack,
  parse (quoteRunes rs ++ rest) cur alts stack
  = parse rest (rev (map OpLiteral rs) ++ cur) alts stack.
Proof.
  induction rs as [|r rs IH]; intros rest cur alts stack; [reflexivity|].
  unfold quoteRunes in *. simpl flat_map.
  destruct (specialRune r) eqn:Hs.
  - change (([92%N; r] ++ flat_map (fun c => if specialRune c then [92%N; c] else [c]) rs) ++ rest)
      with (92%N :: r :: (flat_map (fun c => if specialRune c then [92%N; c] else [c]) rs ++ rest)).
    rewrite parse_escaped, IH by exact Hs.
    simpl. rewrite <- app_assoc. reflexivity.
  - change (([r] ++ flat_map (fun c => if specialRune c then [92%N; c] else [c]) rs) ++ rest)
      with (r :: (flat_map (fun c => if specialRune c then [92%N; c] else [c]) rs ++ rest)).
    rewrite parse_literal, IH by exact Hs.
    simpl. rewrite <- app_assoc. reflexivity.
Qed.

Lemma forallb_map_Some (l : list N) :
  forallb (fun r : option N => match r with Some _ => true | None => false end)
          (map Some l) = true.
Proof. induction l; simpl; auto. Qed.

Lemma Compile_children target :
  utf8.ValidString target = true ->
  Compile ("^" +:+ QuoteMeta target +:+ "(?:\/.*|)$")
  = Ok (childrenRegexp (utf8.runes target)).
Proof.
  intros Hv.
  assert (Hd : utf8.decode ("^" +:+ QuoteMeta target +:+ "(?:\/.*|)$")
               = Some 94%N :: map Some (quoteRunes (utf8.runes target))
                 ++ map Some [40; 63; 58; 92; 47; 46; 42; 124; 41; 36]%N).
  { rewrite append_cons, append_nil.
    rewrite decode_ascii by reflexivity.
    rewrite (decode_QuoteMeta _ _ _ (le_n _) Hv). reflexivity. }
  unfold Compile, utf8.ValidString, utf8.runes. rewrite Hd.
  simpl forallb. rewrite forallb_app, forallb_map_Some.
  simpl.
  rewrite map_app, map_map, map_id.
  rewrite parse_quoted. reflexivity.
Qed.

Lemma concat_cons x items :
  items <> [] -> concat (x :: items) = OpConcat (concat items) x.
Proof. destruct items; [congruence | reflexivity]. Qed.

Lemma run_begin_false items s k :
  run (concat (items ++ [OpBeginText])) false s k = false.
Proof.
  revert s k. induction items as [|x items IH]; intros s k; [reflexivity|].
  rewrite <- app_comm_cons, concat_cons by (destruct items; discriminate).
  simpl. apply IH.
Qed.

Lemma stripPrefix_snoc rs r s :
  stripPrefix (rs ++ [r]) s
  = match stripPrefix rs s with
    | Some (c :: s') => if (c =? r)%N then Some s' else None
    | _ => None
    end.
Proof.
  revert s. induction rs as [|x rs IH]; intros s; simpl.
  - destruct s; reflexivity.
  - destruct s as [|c s]; [reflexivity|]. destruct (c =? x)%N; [apply IH | reflexivity].
Qed.

Lemma run_prefix rs : forall s k,
  (forall b s', k b s' = k false s') ->
  run (concat (rev (map OpLiteral rs) ++ [OpBeginText])) true s k
  = match stripPrefix rs s with
    | Some rest => k false rest
    | None => false
    end.
Proof.
  induction rs as [|r rs IH] using rev_ind; intros s k Hk; [simpl; apply Hk|].
  rewrite map_app, rev_app_distr. simpl rev. simpl app.
  rewrite concat_cons by (destruct (rev (map OpLiteral rs)); discriminate).
  simpl run. rewrite IH by reflexivity.
  rewrite stripPrefix_snoc.
  destruct (stripPrefix rs s) as [[|c s']|]; try reflexivity.
  destruct (c =? r)%N; reflexivity.
Qed.

Lemma run_star sub bt s k :
  run (OpStar sub) bt s k = starLoop (run sub) k (length s) bt s.
Proof. reflexivity. Qed.

Lemma star_any_end s bt :
  starLoop (run OpAnyCharNotNL) (fun bt s => run OpEndText bt s (fun _ _ => true))
           (length s) bt s
  = noNewline s.
Proof.
  revert bt. induction s as [|c s IH]; intros bt; [reflexivity|].
  simpl. rewrite IH.
  replace (length s <? S (length s))%nat with true
    by (symmetry; apply Nat.ltb_lt; lia).
  reflexivity.
Qed.

Lemma run_children rs s :
  run (childrenRegexp rs) true s (fun _ _ => true) = childOf rs s.
Proof.
  unfold childrenRegexp, childOf.
  rewrite concat_cons by discriminate.
  rewrite concat_cons by (destruct (rev (map OpLiteral rs)); discriminate).
  simpl run at 1. 
  rewrite run_prefix by reflexivity.
  destruct (stripPrefix rs s) as [[|c tl]|]; try reflexivity.
  unfold childGroup.
  change (run (OpAlternate (OpConcat (OpLiteral 47) (OpStar OpAnyCharNotNL)) OpEmptyMatch)
              false (c :: tl) (fun bt' s' => run OpEndText bt' s' (fun _ _ => true)))
    with ((c =? 47)%N && starLoop (run OpAnyCharNotNL)
                           (fun bt s => run OpEndText bt s (fun _ _ => true))
                           (length tl) false tl || false).
  rewrite star_any_end, orb_false_r. reflexivity.
Qed.

Lemma search_eq re bt s :
  search re bt s
  = run re bt s (fun _ _ => true)
    || match s with [] => false | _ :: s' => search re false s' end.
Proof. destruct s; reflexivity. Qed.

Lemma run_children_later rs s k :
  run (childrenRegexp rs) false s k = false.
Proof.
  change (childrenRegexp rs)
    with (concat ((OpEndText :: childGroup :: rev (map OpLiteral rs)) ++ [OpBeginText])).
  apply run_begin_false.
Qed.

Lemma search_children_later rs s :
  search (childrenRegexp rs) false s = false.
Proof.
  induction s as [|c s IH]; rewrite search_eq, run_children_later;
    [reflexivity | exact IH].
Qed.

Lemma MatchString_children rs input :
  MatchString (childrenRegexp rs) input = childOf rs (utf8.runes input).
Proof.
  unfold MatchString. rewrite search_eq, run_children.
  destruct (utf8.runes input) as [|c s].
  - apply orb_false_r.
  - rewrite search_children_later. apply orb_false_r.
Qed.

Lemma checkIfChildren_runes input target :
  utf8.ValidString target = true ->
  checkIfChildren input target
  = Returns (childOf (utf8.runes target) (utf8.runes input)).
Proof.
  intros Hv. unfold checkIfChildren.
  rewrite Compile_children by exact Hv.
  rewrite MatchString_children. reflexivity.
Qed.

End checkIfChildren_runs.

(** ** [extractUrls]: the traversal *)

(** Induction on a tree whose children are a list of trees. *)
Lemma Node_ind' (P : html.Node -> Prop) :
  (forall t d a cs, Forall P cs -> P (html.mkNode t d a cs)) ->
  forall n, P n.
Proof.
  intros H. fix IH 1. intros [t d a cs]. apply H.
  induction cs as [|c cs IHcs]; constructor; [apply IH | exact IHcs].
Qed.

(** [f] visits the anchors in document order, and of an anchor only the
    [href] values matter. *)
Lemma rangeAttr_hrefs p attrs : forall urls,
  rangeAttr p attrs urls = rangeHrefs p (hrefValues attrs) urls.
Proof.
  induction attrs as [|a attrs IH]; intros urls; simpl; [reflexivity|].
  destruct (String.eqb (html.Key a) "href"); simpl; [|apply IH].
  destruct (visitHref p (html.Val a) urls); auto.
Qed.

Lemma rangeAnchors_app p a1 a2 urls :
  rangeAnchors p (a1 ++ a2) urls
  = match rangeAnchors p a1 urls with
    | Panics msg => Panics msg
    | Returns urls' => rangeAnchors p a2 urls'
    end.
Proof.
  revert urls. induction a1 as [|v a1 IH]; intros urls; simpl; [reflexivity|].
  destruct (rangeHrefs p v urls); [apply IH | reflexivity].
Qed.

Lemma f_anchors p n : forall urls,
  f p n urls = rangeAnchors p (map hrefValues (anchorsOf n)) urls.
Proof.
  induction n as [t d a cs IH] using Node_ind'. intros urls.
  cbn [f anchorsOf]. rewrite map_app, rangeAnchors_app.
  assert (Hcs : forall urls,
    (fix siblings (cs : list html.Node) (urls : list string) : outcome (list string) :=
       match cs with
       | [] => Returns urls
       | c :: cs' =>
           match f p c urls with
           | Panics msg => Panics msg
           | Returns urls' => siblings cs' urls'
           end
       end) cs urls
    = rangeAnchors p
        (map hrefValues
           ((fix siblings (cs : list html.Node) : list (list html.Attribute) :=
               match cs with
               | [] => []
               | c :: cs' => anchorsOf c ++ siblings cs'
               end) cs)) urls).
  { induction cs as [|c cs IHcs]; intros u; [reflexivity|].
    inversion IH as [|? ? Hc Hrest]; subst.
    rewrite map_app, rangeAnchors_app, <- Hc.
    destruct (f p c u); [apply IHcs; exact Hrest | reflexivity]. }
  destruct (html.NodeType_eqb t html.ElementNode && String.eqb d "a").
  - simpl. rewrite rangeAttr_hrefs.
    destruct (rangeHrefs p (hrefValues a) urls); [apply Hcs | reflexivity].
  - simpl. apply Hcs.
Qed.

(** With a scope of valid UTF-8 the pattern of [checkIfChildren]
    compiles, and the traversal returns. *)
Section extractUrls_returns.
Variable p : url.URL.

Hypothesis Hvalid : utf8.ValidString (url.Host p +:+ url.Path p) = true.

Lemma scopeAndAppend_no_panic newUrl urls msg :
  scopeAndAppend p newUrl urls <> LoopPanics msg.
Proof.
  unfold scopeAndAppend. rewrite checkIfChildren_runes by exact Hvalid.
  destruct (childOf _ _); [|discriminate].
  destruct (negb _); discriminate.
Qed.

Lemma relativePath_no_panic newUrl urls msg :
  relativePath p newUrl urls <> LoopPanics msg.
Proof.
  unfold relativePath. destruct (strings.HasPrefix newUrl "/").
  - destruct (url.Parse _); [apply scopeAndAppend_no_panic | discriminate].
  - apply scopeAndAppend_no_panic.
Qed.

Lemma visitHref_no_panic val urls msg :
  visitHref p val urls <> LoopPanics msg.
Proof.
  unfold visitHref. destruct (strings.HasPrefix val "#"); [discriminate|].
  cbv zeta. destruct (strings.HasPrefix val "http").
  - destruct (url.Parse _); [|discriminate].
    destruct (negb _); [discriminate | apply relativePath_no_panic].
  - apply relativePath_no_panic.
Qed.

Lemma rangeAttr_returns attrs : forall urls,
  exists urls', rangeAttr p attrs urls = Returns urls'.
Proof.
  induction attrs as [|a attrs IH]; intros urls; simpl; [eauto|].
  destruct (String.eqb (html.Key a) "href"); [|apply IH].
  destruct (visitHref p (html.Val a) urls) eqn:E; eauto.
  exfalso. exact (visitHref_no_panic _ _ _ E).
Qed.

Lemma f_returns n : forall urls, exists urls', f p n urls = Returns urls'.
Proof.
  induction n as [t d a cs IH] using Node_ind'. intros urls. simpl.
  destruct (html.NodeType_eqb t html.ElementNode && String.eqb d "a").
  - destruct (rangeAttr_returns a urls) as [urls1 ->].
    clear urls. revert urls1. induction cs as [|c cs IHcs]; intros urls; [eauto|].
    inversion IH as [|? ? Hc Hcs]; subst.
    destruct (Hc urls) as [u' ->]. apply IHcs. exact Hcs.
  - revert urls. induction cs as [|c cs IHcs]; intros urls; [eauto|].
    inversion IH as [|? ? Hc Hcs]; subst.
    destruct (Hc urls) as [u' ->]. apply IHcs. exact Hcs.
Qed.

Lemma extractUrls_returns doc :
  exists urls, extractUrls p (Some doc) = Returns (urls, None).
Proof.
  unfold extractUrls. destruct (f_returns doc []) as [urls ->]. eauto.
Qed.

End extractUrls_returns.

(** ** [process]: stages, results and effects *)

Section process_properties.

Variable env : Env.

Lemma process_as_steps target w :
  process env target w
  = bind (next env (Called target)) (fun g1 =>
    bind (next env g1) (fun g2 =>
    bind (next env g2) (fun g3 =>
    bind (next env g3) (fun _ => ret None)))) w.
Proof.
  unfold process, next, bind.
  destruct (parseAndCheck target w) as [[[[t p] ok]|msg] w1]; [|reflexivity].
  simpl. destruct ok; simpl; [reflexivity|].
  destruct (checkForFile _ _ _) as [[sc|msg] w2]; [|reflexivity].
  simpl. destruct (fetchAndFanOut env t p sc w2) as [[[]|msg] w3]; reflexivity.
Qed.

Lemma parseAndCheck_ok target p w :
  url.Parse (strings.TrimSuffix target "/") = Ok p ->
  parseAndCheck target w
  = (Returns (key p, p, existsb (String.eqb (key p)) (URLs w)), w).
Proof.
  intros Hp. unfold parseAndCheck. rewrite Hp. reflexivity.
Qed.

Lemma parseAndCheck_err target e w :
  url.Parse (strings.TrimSuffix target "/") = Err e ->
  parseAndCheck target w
  = (Panics "invalid memory address or nil pointer dereference",
     logged w [EvPrint "error parsing the target"]).
Proof.
  intros Hp. unfold parseAndCheck. rewrite Hp. reflexivity.
Qed.

Lemma process_skips_visited target k w :
  normalize target = Some k ->
  In k (URLs w) ->
  process env target w = (Returns None, w).
Proof.
  unfold normalize. intros Hn Hin.
  destruct (url.Parse (strings.TrimSuffix target "/")) as [p|e] eqn:Hp; [|discriminate].
  injection Hn as <-.
  unfold process, bind. rewrite (parseAndCheck_ok _ _ _ Hp).
  replace (existsb _ (URLs w)) with true; [reflexivity|].
  symmetry. apply existsb_exists. exists (key p). split; [exact Hin|].
  apply String.eqb_refl.
Qed.

Lemma process_never_errs target w e w' :
  process env target w <> (Returns (Some e), w').
Proof.
  unfold process, bind.
  destruct (parseAndCheck target w) as [[[[t p] ok]|msg] w1]; [|discriminate].
  destruct (negb ok).
  - destruct (markVisited t w1) as [[[]|msg] w2]; [|discriminate].
    destruct (checkForFile _ _ w2) as [[sc|msg] w3]; [|discriminate].
    destruct (fetchAndFanOut env t p sc w3) as [[[]|msg] w4]; discriminate.
  - discriminate.
Qed.


Lemma returns_ret {A} (a : A) : returns (ret a).
Proof. intros w. unfold ret. eauto. Qed.

Lemma returns_bind {A B} (m : M A) (k : A -> M B) :
  returns m -> (forall a, returns (k a)) -> returns (bind m k).
Proof.
  intros Hm Hk w. unfold bind. destruct (Hm w) as (a & w1 & ->). apply Hk.
Qed.

Lemma returns_bind_ret {A B} (a : A) (k : A -> M B) :
  returns (k a) -> returns (bind (ret a) k).
Proof. intros H w. apply H. Qed.

Lemma returns_emit e : returns (emit e).
Proof. intros w. unfold emit. eauto. Qed.

Lemma returns_printIfErr msg err : returns (printIfErr msg err).
Proof. destruct err; [apply returns_emit | apply returns_ret]. Qed.

Lemma returns_download u : returns (download env u).
Proof.
  unfold download. apply returns_bind; [apply returns_emit|]. intros _ w.
  apply returns_bind; [apply returns_emit|]. intros _.
  destruct (http_Get env (trace w) u) as [resp|err]; [|apply returns_ret].
  destruct (negb _); [apply returns_ret|].
  destruct (Body resp); apply returns_ret.
Qed.

Lemma returns_checkForFile fp name : returns (checkForFile fp name).
Proof.
  unfold checkForFile. apply returns_bind; [apply returns_emit|]. intros _ w.
  destruct (files w !! _);
    (apply returns_bind; [apply returns_emit | intros _; apply returns_ret]).
Qed.

Lemma returns_setFile name data : returns (setFile name data).
Proof. intros w. unfold setFile. eauto. Qed.

Lemma returns_save fp name data : returns (save env fp name data).
Proof.
  unfold save. intros w.
  destruct (os_MkdirAll env (trace w) fp);
    (apply returns_bind; [apply returns_emit | intros _]); [apply returns_ret|].
  intros w1. destruct (os_Create env (trace w1) _);
    (apply returns_bind; [apply returns_emit | intros _]); [apply returns_ret|].
  apply returns_bind; [apply returns_setFile | intros _].
  intros w2. destruct (file_Write env (trace w2) _);
    (apply returns_bind; [apply returns_emit | intros _]); [apply returns_ret|].
  apply returns_bind; [apply returns_setFile | intros _; apply returns_ret].
Qed.

Lemma returns_go u : returns (go u).
Proof.
  unfold go. apply returns_bind; [apply returns_emit|]. intros _ w. eauto.
Qed.

Lemma returns_rangeGo urls : returns (rangeGo urls).
Proof.
  induction urls as [|u urls IH]; simpl; [apply returns_ret|].
  apply returns_bind; [apply returns_go | intros _; exact IH].
Qed.

Lemma returns_fetchAndFanOut target p savedContent :
  (forall s, exists doc, html_Parse env s = Ok doc) ->
  utf8.ValidString (url.Host p +:+ url.Path p) = true ->
  returns (fetchAndFanOut env target p savedContent).
Proof.
  intros Hhtml Hvalid. unfold fetchAndFanOut.
  destruct (pageFile env p) as [fp fileName].
  apply returns_bind.
  - destruct savedContent; [apply returns_ret|].
    apply returns_bind; [apply returns_download|]. intros [content err].
    apply returns_bind; [apply returns_printIfErr|]. intros _.
    apply returns_bind; [apply returns_save|]. intros err'.
    apply returns_bind; [apply returns_printIfErr|]. intros _. apply returns_ret.
  - intros content. unfold parseHTML.
    destruct (Hhtml (string_of_bytes content)) as [doc ->].
    apply returns_bind_ret. cbv beta iota.
    apply returns_bind; [apply returns_ret|]. intros _.
    apply returns_bind; [apply returns_emit|]. intros _.
    destruct (extractUrls_returns p Hvalid doc) as [urls ->].
    apply returns_bind; [apply returns_ret|]. intros _. apply returns_rangeGo.
Qed.

Lemma returns_markVisited t : returns (markVisited t).
Proof. intros w. unfold markVisited. eauto. Qed.

Lemma returns_process target p :
  (forall s, exists doc, html_Parse env s = Ok doc) ->
  url.Parse (strings.TrimSuffix target "/") = Ok p ->
  utf8.ValidString (url.Host p +:+ url.Path p) = true ->
  forall w, exists w', process env target w = (Returns None, w').
Proof.
  intros Hhtml Hp Hvalid w.
  assert (H : exists a w', process env target w = (Returns a, w')).
  { unfold process, bind at 1. rewrite (parseAndCheck_ok _ _ _ Hp).
    apply returns_bind; [|intros _; apply returns_ret].
    destruct (negb _); [|apply returns_ret].
    apply returns_bind; [apply returns_markVisited | intros _].
    apply returns_bind; [apply returns_checkForFile | intros sc].
    apply returns_fetchAndFanOut; assumption. }
  destruct H as ([e|] & w' & H); [|eauto].
  exfalso. exact (process_never_errs _ _ _ _ H).
Qed.


Lemma fetches_app t1 t2 : fetches (t1 ++ t2) = fetches t1 + fetches t2.
Proof. induction t1 as [|[] t1 IH]; simpl; lia. Qed.

Lemma saves_app t1 t2 : saves (t1 ++ t2) = saves t1 + saves t2.
Proof. induction t1 as [|[] t1 IH]; simpl; lia. Qed.

Lemma fetches_go urls : fetches (map EvGo urls) = 0.
Proof. induction urls; simpl; auto. Qed.

Lemma saves_go urls : saves (map EvGo urls) = 0.
Proof. induction urls; simpl; auto. Qed.

Lemma rangeGo_spec urls : forall w,
  rangeGo urls w
  = (Returns tt, mkWorld (URLs w) (files w) (trace w ++ map EvGo urls)
                         (goroutines w ++ urls)).
Proof.
  induction urls as [|u urls IH]; intros w; simpl.
  - unfold ret. rewrite !app_nil_r. destruct w; reflexivity.
  - unfold bind, go, emit, logged, bind. simpl. rewrite IH. simpl.
    rewrite <- !app_assoc. reflexivity.
Qed.

Lemma fetchAndFanOut_cached t p c w :
  fetchAndFanOut env t p (Some c) w
  = match html_Parse env c with
    | Err _ =>
        (Panics nilDeref,
         logged w [EvPrint "error parsing html content"; EvPrint "extracting urls from"])
    | Ok doc =>
        match extractUrls p (Some doc) with
        | Panics msg => (Panics msg, logged w [EvPrint "extracting urls from"])
        | Returns (urls, _) =>
            (Returns tt, spawned w [EvPrint "extracting urls from"] urls)
        end
    end.
Proof.
  unfold fetchAndFanOut. destruct (pageFile env p) as [fp fileName].
  unfold bind at 1. unfold ret at 1. unfold parseHTML. simpl string_of_bytes.
  destruct (html_Parse env c) as [doc|e].
  - unfold bind at 1. unfold ret at 1. cbv beta iota.
    unfold printIfErr at 1. unfold bind at 1. unfold ret at 1.
    unfold bind at 1, print, emit.
    unfold extractUrls. 
    destruct (f p doc []) as [urls|msg]; [|reflexivity].
    unfold printIfErr, bind, ret. rewrite rangeGo_spec. unfold spawned, logged. simpl.
    rewrite <- app_assoc. reflexivity.
  - unfold bind, ret, printIfErr, print, emit, logged, panic, extractUrls. simpl.
    rewrite <- app_assoc. reflexivity.
Qed.


Lemma checkForFile_hit fp name c w :
  files w !! (fp +:+ "/" +:+ name) = Some c ->
  checkForFile fp name w
  = (Returns (Some c),
     logged w [EvReadFile (fp +:+ "/" +:+ name); EvPrint "already exists"]).
Proof.
  intros H. unfold checkForFile, bind, emit, print, ret. simpl. rewrite H.
  unfold logged. simpl. rewrite <- app_assoc. reflexivity.
Qed.

Lemma process_cache_hit target p c w :
  url.Parse (strings.TrimSuffix target "/") = Ok p ->
  ~ In (key p) (URLs w) ->
  files w !! pagePath env p = Some c ->
  exists o w',
    process env target w = (o, w')
    /\ URLs w' = URLs w ++ [key p]
    /\ files w' = files w
    /\ fetches (trace w') = fetches (trace w)
    /\ saves (trace w') = saves (trace w)
    /\ forall doc urls,
         html_Parse env c = Ok doc ->
         extractUrls p (Some doc) = Returns (urls, None) ->
         o = Returns None
         /\ trace w' = trace w ++ [EvReadFile (pagePath env p); EvPrint "already exists";
                                   EvPrint "extracting urls from"] ++ map EvGo urls
         /\ goroutines w' = goroutines w ++ urls.
Proof.
  intros Hp Hnew Hfile.
  unfold process, bind at 1. rewrite (parseAndCheck_ok _ _ _ Hp).
  replace (existsb _ (URLs w)) with false.
  2:{ symmetry. apply not_true_is_false. intros H. apply existsb_exists in H as (x & Hx & E).
      apply String.eqb_eq in E. subst x. exact (Hnew Hx). }
  cbv beta iota. unfold negb.
  unfold bind at 1. unfold bind at 1. unfold markVisited at 1.
  unfold bind at 1. rewrite (checkForFile_hit _ _ c) by exact Hfile.
  rewrite fetchAndFanOut_cached.
  fold (pagePath env p).
  destruct (html_Parse env c) as [doc|e].
  - destruct (extractUrls p (Some doc)) as [[urls err]|msg] eqn:Hex.
    + eexists _, _. split; [reflexivity|]. unfold spawned, logged.
      refine (conj eq_refl (conj eq_refl (conj _ (conj _ _)))).
      * simpl. rewrite ?fetches_app, ?saves_app. simpl. rewrite ?fetches_go. lia.
      * simpl. rewrite ?fetches_app, ?saves_app. simpl. rewrite ?saves_go. lia.
      * intros doc' urls' Hd He. injection Hd as <-. rewrite Hex in He.
        injection He as <- _. simpl. rewrite <- app_assoc. auto.
    + eexists _, _. split; [reflexivity|]. unfold logged.
      refine (conj eq_refl (conj eq_refl (conj _ (conj _ _)))).
      * simpl. rewrite ?fetches_app, ?saves_app. simpl. lia.
      * simpl. rewrite ?fetches_app, ?saves_app. simpl. lia.
      * intros doc' urls' Hd He. injection Hd as <-. rewrite Hex in He. discriminate.
  - eexists _, _. split; [reflexivity|]. unfold logged.
    refine (conj eq_refl (conj eq_refl (conj _ (conj _ _)))).
    + simpl. rewrite ?fetches_app, ?saves_app. simpl. lia.
    + simpl. rewrite ?fetches_app, ?saves_app. simpl. lia.
    + intros doc' urls'; discriminate.
Qed.


Lemma populated_called F S raw :
  populated env F S -> In raw S ->
  exists p, url.Parse (strings.TrimSuffix raw "/") = Ok p /\ inMirror env F S p.
Proof.
  intros Hpop Hin. unfold populated in Hpop. rewrite Forall_forall in Hpop.
  apply Hpop. apply list_elem_of_In. exact Hin.
Qed.

Lemma served_insert F S (gs : list goroutine) i g :
  Forall (served env F S) gs -> served env F S g -> Forall (served env F S) (<[i := g]> gs).
Proof.
  intros Hgs Hg. apply Forall_insert; assumption.
Qed.

Lemma step_offline F n m S i c :
  populated env F S -> offlineRun env F n m S c -> offlineRun env F n m S (step env i c).
Proof.
  intros Hpop (Hfiles & Hfetch & Hsave & Hgo & Hserved).
  unfold step. destruct (crashed c) eqn:Hcr; [repeat split; assumption|].
  destruct (running c !! i) as [g|] eqn:Hg; [|repeat split; assumption].
  assert (Hsg : served env F S g).
  { rewrite Forall_forall in Hserved. apply Hserved. eapply list_elem_of_lookup_2; eauto. }
  destruct g as [raw | t p ok | t p | t p sc |]; cbn [next].
  - (* called *)
    destruct (populated_called _ _ _ Hpop Hsg) as (p & Hp & Hm).
    unfold bind. rewrite (parseAndCheck_ok _ _ _ Hp). simpl.
    rewrite Hgo, app_nil_r. repeat split; try assumption.
    apply served_insert; assumption.
  - (* checked *)
    destruct ok; simpl.
    + rewrite Hgo, app_nil_r. repeat split; try assumption.
      apply served_insert; [assumption | exact I].
    + rewrite Hgo, app_nil_r. repeat split; try assumption.
      apply served_insert; assumption.
  - (* marked *)
    destruct Hsg as (c0 & Hf & Hl).
    unfold bind. unfold pagePath in Hf. rewrite <- Hfiles in Hf.
    rewrite (checkForFile_hit _ _ c0 _ Hf).
    unfold offlineRun, ret, started, logged. simpl.
    rewrite Hgo, app_nil_r, fetches_app, saves_app. simpl.
    repeat split; try assumption; try lia.
    apply served_insert; [assumption|]. simpl. split.
    * exists c0. rewrite <- Hfiles. auto.
    * rewrite <- Hfiles. symmetry. exact Hf.
  - (* looked *)
    destruct Hsg as ((c0 & Hf & Hl) & ->). rewrite Hf.
    unfold bind. rewrite fetchAndFanOut_cached.
    destruct (html_Parse env c0) as [doc|e] eqn:Hdoc.
    + destruct (extractUrls p (Some doc)) as [[urls err]|msg] eqn:Hex.
      * assert (err = None) as ->.
        { unfold extractUrls in Hex. destruct (f p doc []); congruence. }
        unfold offlineRun, ret, started, spawned, logged. simpl.
        rewrite Hgo, !fetches_app, !saves_app. simpl. rewrite fetches_go, saves_go.
        repeat split; try assumption; try lia.
        apply Forall_app. split.
        -- apply served_insert; [assumption | exact I].
        -- specialize (Hl _ _ eq_refl Hex). apply Forall_map.
           eapply Forall_impl; [exact Hl|]. intros u Hu. exact Hu.
      * unfold offlineRun, logged. simpl. rewrite fetches_app, saves_app. simpl.
        repeat split; try assumption; lia.
    + unfold offlineRun, logged. simpl. rewrite fetches_app, saves_app. simpl.
      repeat split; try assumption; lia.
  - (* done *)
    simpl. rewrite Hgo, app_nil_r. repeat split; try assumption.
    apply served_insert; [assumption | exact I].
Qed.

Lemma runSchedule_offline F n m S schedule : forall c,
  populated env F S -> offlineRun env F n m S c -> offlineRun env F n m S (runSchedule env schedule c).
Proof.
  induction schedule as [|i schedule IH]; intros c Hpop Hc; [exact Hc|].
  simpl. apply IH; [exact Hpop|]. apply step_offline; assumption.
Qed.

Lemma runSchedule_app s1 s2 c :
  runSchedule env (s1 ++ s2) c = runSchedule env s2 (runSchedule env s1 c).
Proof. unfold runSchedule. apply fold_left_app. Qed.

Lemma checkForFile_miss fp name w :
  files w !! (fp +:+ "/" +:+ name) = None ->
  checkForFile fp name w
  = (Returns None,
     logged w [EvReadFile (fp +:+ "/" +:+ name);
               EvPrint "does not exist. downloading and saving..."]).
Proof.
  intros H. unfold checkForFile, bind, emit, print, ret. simpl. rewrite H.
  unfold logged. simpl. rewrite <- app_assoc. reflexivity.
Qed.

Lemma step_marked_miss i c t p :
  crashed c = None ->
  running c !! i = Some (Marked t p) ->
  files (world c) !! pagePath env p = None ->
  step env i c
  = mkProgram (started (logged (world c)
                          [EvReadFile (pagePath env p);
                           EvPrint "does not exist. downloading and saving..."]))
              (<[i := Looked t p None]> (running c)
               ++ map Called (goroutines (world c)))
              None.
Proof.
  intros Hc Hr Hf. unfold step. rewrite Hc, Hr. cbn [next]. unfold bind.
  rewrite checkForFile_miss by exact Hf. reflexivity.
Qed.

End process_properties.

(** ** [process]: counting what a call adds to the trace *)

Section counting.

Variable env : Env.
Variable count : list Event -> nat.
Hypothesis count_app : forall t1 t2, count (t1 ++ t2) = count t1 + count t2.

Lemma adds_ret {A} (a : A) : adds count 0 (ret a).
Proof. intros w. simpl. lia. Qed.

Lemma adds_panic {A} msg : adds count 0 (@panic A msg).
Proof. intros w. simpl. lia. Qed.

Lemma adds_bind {A B} a (m : M A) (k : A -> M B) :
  adds count a m -> (forall x, adds count 0 (k x)) -> adds count a (bind m k).
Proof.
  intros Hm Hk w. unfold bind. specialize (Hm w).
  destruct (m w) as [[x|msg] w1]; simpl in *; [|exact Hm].
  rewrite (Hk x w1), Hm. lia.
Qed.

Lemma adds_then {A B} b (m : M A) (k : A -> M B) :
  returns m -> adds count 0 m -> (forall x, adds count b (k x)) ->
  adds count b (bind m k).
Proof.
  intros Hr Hm Hk w. unfold bind. specialize (Hm w).
  destruct (Hr w) as (x & w1 & E). rewrite E in *. simpl in *.
  rewrite (Hk x w1), Hm. lia.
Qed.

Lemma adds_emit e : adds count (count [e]) (emit e).
Proof. intros w. unfold emit, logged. simpl. apply count_app. Qed.

Lemma adds_quiet e : count [e] = 0 -> adds count 0 (emit e).
Proof. intros H. rewrite <- H. apply adds_emit. Qed.

Lemma adds_printIfErr msg err :
  count [EvPrint msg] = 0 -> adds count 0 (printIfErr msg err).
Proof. intros H. destruct err; [apply adds_quiet; exact H | apply adds_ret]. Qed.

Lemma adds_setFile name data : adds count 0 (setFile name data).
Proof. intros w. simpl. lia. Qed.

Hypothesis count_print : forall msg, count [EvPrint msg] = 0.
Hypothesis count_go : forall u, count [EvGo u] = 0.
Hypothesis count_read : forall u, count [EvReadFile u] = 0.
Hypothesis count_mkdir : forall u, count [EvMkdirAll u] = 0.
Hypothesis count_create : forall u, count [EvCreate u] = 0.
Hypothesis count_write : forall u d, count [EvWrite u d] = 0.

Lemma adds_download u : adds count (count [EvHttpGet u]) (download env u).
Proof.
  unfold download.
  apply adds_then; [apply returns_emit | apply adds_quiet, count_print|].
  intros _ w.
  assert (H : adds count (count [EvHttpGet u])
                (bind (emit (EvHttpGet u)) (fun _ =>
                   match http_Get env (trace w) u with
                   | Ok resp =>
                       if negb (StatusCode resp =? StatusOK)%N
                       then ret (None, Some "invalid status code")
                       else match Body resp with
                            | Ok data => ret (Some data, None)
                            | Err err => ret (None, Some err)
                            end
                   | Err err => ret (None, Some err)
                   end))).
  { apply adds_bind; [apply adds_emit|]. intros _.
    destruct (http_Get env (trace w) u) as [resp|e]; [|apply adds_ret].
    destruct (negb _); [apply adds_ret|]. destruct (Body resp); apply adds_ret. }
  apply H.
Qed.

Lemma adds_save fp name data : adds count 0 (save env fp name data).
Proof.
  unfold save. intros w.
  destruct (os_MkdirAll env (trace w) fp).
  { apply adds_bind; [apply adds_quiet, count_mkdir | intros _; apply adds_ret]. }
  revert w. change (adds count 0 (bind (emit (EvMkdirAll fp)) (fun _ w =>
    match os_Create env (trace w) (fp +:+ "/" +:+ name) with
    | Some err => bind (emit (EvCreate (fp +:+ "/" +:+ name))) (fun _ => ret (Some err)) w
    | None =>
        bind (emit (EvCreate (fp +:+ "/" +:+ name))) (fun _ =>
        bind (setFile (fp +:+ "/" +:+ name) "") (fun _ w =>
          match file_Write env (trace w) (fp +:+ "/" +:+ name) with
          | Some err =>
              bind (emit (EvWrite (fp +:+ "/" +:+ name) (string_of_bytes data)))
                   (fun _ => ret (Some err)) w
          | None =>
              bind (emit (EvWrite (fp +:+ "/" +:+ name) (string_of_bytes data))) (fun _ =>
              bind (setFile (fp +:+ "/" +:+ name) (string_of_bytes data))
                   (fun _ => ret None)) w
          end)) w
    end))).
  apply adds_bind; [apply adds_quiet, count_mkdir|]. intros _ w.
  destruct (os_Create env (trace w) _).
  { apply adds_bind; [apply adds_quiet, count_create | intros _; apply adds_ret]. }
  apply adds_bind; [apply adds_quiet, count_create|]. intros _.
  apply adds_bind; [apply adds_setFile|]. intros _ w1.
  destruct (file_Write env (trace w1) _).
  { apply adds_bind; [apply adds_quiet, count_write | intros _; apply adds_ret]. }
  apply adds_bind; [apply adds_quiet, count_write|]. intros _.
  apply adds_bind; [apply adds_setFile | intros _; apply adds_ret].
Qed.

Lemma adds_rangeGo urls : adds count 0 (rangeGo urls).
Proof.
  induction urls as [|u urls IH]; simpl; [apply adds_ret|].
  apply adds_bind; [|intros _; exact IH].
  unfold go. apply adds_bind; [apply adds_quiet, count_go|].
  intros _ w. simpl. lia.
Qed.

Lemma adds_fetchAndFanOut_miss t p :
  adds count (count [EvHttpGet t]) (fetchAndFanOut env t p None).
Proof.
  unfold fetchAndFanOut. destruct (pageFile env p) as [fp fileName].
  apply adds_bind.
  - apply adds_bind; [apply adds_download|]. intros [content err].
    apply adds_bind; [apply adds_printIfErr, count_print|]. intros _.
    apply adds_bind; [apply adds_save|]. intros err'.
    apply adds_bind; [apply adds_printIfErr, count_print | intros _; apply adds_ret].
  - intros content.
    apply adds_bind.
    { unfold parseHTML. destruct (html_Parse env _); apply adds_ret. }
    intros [htmlContent err].
    apply adds_bind; [apply adds_printIfErr, count_print|]. intros _.
    apply adds_bind; [apply adds_quiet, count_print|]. intros _.
    destruct (extractUrls p htmlContent) as [[urls e]|msg]; [|apply adds_panic].
    apply adds_bind; [apply adds_printIfErr, count_print | intros _; apply adds_rangeGo].
Qed.

Lemma adds_process_miss target p :
  url.Parse (strings.TrimSuffix target "/") = Ok p ->
  forall w,
    ~ In (key p) (URLs w) ->
    files w !! pagePath env p = None ->
    count (trace (snd (process env target w)))
    = count (trace w) + count [EvHttpGet (key p)].
Proof.
  intros Hp w Hnew Hfile.
  unfold process, bind at 1. rewrite (parseAndCheck_ok _ _ _ Hp).
  replace (existsb _ (URLs w)) with false.
  2:{ symmetry. apply not_true_is_false. intros H. apply existsb_exists in H as (x & Hx & E).
      apply String.eqb_eq in E. subst x. exact (Hnew Hx). }
  cbv beta iota. unfold negb.
  unfold bind at 1. unfold bind at 1. unfold markVisited at 1.
  unfold bind at 1. rewrite checkForFile_miss by exact Hfile.
  pose proof (adds_fetchAndFanOut_miss (key p) p
                (logged (mkWorld (URLs w ++ [key p]) (files w) (trace w) (goroutines w))
                        [EvReadFile (pagePath env p);
                         EvPrint "does not exist. downloading and saving..."])) as H.
  unfold pagePath in H.
  pose proof (count_app [EvReadFile (pagePath env p)]
                [EvPrint "does not exist. downloading and saving..."]) as H2.
  rewrite count_read, count_print in H2. unfold pagePath in H2. simpl in H2.
  destruct (fetchAndFanOut env (key p) p None _) as [[[]|msg] w'];
    simpl in *; rewrite H, count_app, H2; lia.
Qed.

End counting.

Lemma requestsFor_app u t1 t2 :
  requestsFor u (t1 ++ t2) = requestsFor u t1 + requestsFor u t2.
Proof. induction t1 as [|[] t1 IH]; simpl; lia. Qed.

(** * The claims *)

(** ** C1: the duplicate check is not one step with the append *)

(** C1.  The claim: of the concurrent calls of [process] for one URL
    exactly one passes the duplicate check, because check and mark are
    one indivisible step.  The code reads [URLs] in the loop of lines
    79-83 without the mutex and only appends under it (lines 86-88).
    Here two goroutines are called with the same URL and scheduled in
    turn: in every environment both find the URL absent, both append it
    and both find no saved page, so that each is about to download it;
    on a network that answers, the trace holds two GET requests for the
    same URL. *)
Theorem goroutines_same_url_both_claim :
  (forall env,
     let c := runSchedule env [0; 1; 0; 1; 0; 1] twoCalls in
     URLs (world c)
     = ["https://github.com/features/a"; "https://github.com/features/a"]
     /\ running c = [Looked "https://github.com/features/a" featuresA None;
                     Looked "https://github.com/features/a" featuresA None]
     /\ crashed c = None)
  /\ (let c := runSchedule liveEnv [0; 1; 0; 1; 0; 1; 0; 1] twoCalls in
      requestsFor "https://github.com/features/a" (trace (world c)) = 2
      /\ running c = [Done; Done]
      /\ crashed c = None).
Proof.
  split.
  - intros env. cbv zeta.
    change [0; 1; 0; 1; 0; 1] with ([0; 1; 0; 1] ++ [0; 1]).
    rewrite runSchedule_app.
    assert (H4 : runSchedule env [0; 1; 0; 1] twoCalls
                 = mkProgram
                     (mkWorld ["https://github.com/features/a";
                               "https://github.com/features/a"] ∅ [] [])
                     [Marked "https://github.com/features/a" featuresA;
                      Marked "https://github.com/features/a" featuresA] None)
      by (vm_compute; reflexivity).
    rewrite H4. unfold runSchedule. cbn [fold_left].
    rewrite (step_marked_miss env 0 _ "https://github.com/features/a" featuresA)
      by (reflexivity || apply lookup_empty).
    rewrite (step_marked_miss env 1 _ "https://github.com/features/a" featuresA)
      by (reflexivity || apply lookup_empty).
    repeat split.
  - vm_compute. repeat split.
Qed.

(** ** C2: a visited URL is skipped *)

(** C2.  For every raw URL whose normalized form is already in the
    visited list, [process] is a no-op: it returns nil and leaves the
    world as it found it, so it has printed nothing, requested nothing,
    read and written no file, started no goroutine and left [URLs]
    unchanged. *)
Theorem process_visited_noop env rawURL k w :
  normalize rawURL = Some k ->
  In k (URLs w) ->
  process env rawURL w = (Returns None, w).
Proof. apply process_skips_visited. Qed.

Lemma process_visited_noop_witness :
  process liveEnv "https://github.com/features/"
          (mkWorld ["https://github.com"; "https://github.com/features"] ∅ [] [])
  = (Returns None,
     mkWorld ["https://github.com"; "https://github.com/features"] ∅ [] []).
Proof.
  apply (process_visited_noop liveEnv "https://github.com/features/"
                              "https://github.com/features").
  - reflexivity.
  - simpl. right. left. reflexivity.
Defined.

(** ** C3: links are not deduplicated within a page *)

(** C3.  The claim: the sequence returned by the extractor holds no
    URL twice.  In the loop of lines 260-264 the [continue] resumes the
    loop over [urls] itself, so a URL already collected is appended
    again: a page with two anchors to [/features/a] yields that URL
    twice. *)
Theorem extractUrls_repeats_link :
  extractUrls features (Some pageTwice)
  = Returns (["https://github.com/features/a"; "https://github.com/features/a"], None)
  /\ ~ NoDup ["https://github.com/features/a"; "https://github.com/features/a"].
Proof.
  split; [vm_compute; reflexivity|].
  intros H. apply NoDup_cons_1_1 in H. apply H. left.
Qed.

(** ** C4: the scope filter *)

(** C4.  The claim: [checkIfChildren c s] is true exactly when [c] is
    [s] or starts with [s] followed by a slash.  The three examples of
    the claim hold, but in the pattern of line 286 the dot does not
    match a newline and [$] matches only at the end of the text: a
    candidate below the scope with a newline in it is rejected.  Such a
    candidate reaches [checkIfChildren] from the link [/features/a%0Ab],
    which [extractUrls] therefore drops. *)
Theorem checkIfChildren_rejects_newline :
  checkIfChildren "/features/x" "/features" = Returns true
  /\ checkIfChildren "/featuresX" "/features" = Returns false
  /\ checkIfChildren "/features" "/features" = Returns true
  /\ strings.HasPrefix ("github.com/features/a" +:+ newline +:+ "b")
                       ("github.com/features" +:+ "/") = true
  /\ checkIfChildren ("github.com/features/a" +:+ newline +:+ "b")
                     "github.com/features" = Returns false
  /\ extractUrls features (Some pageNewline) = Returns ([], None).
Proof. repeat split; vm_compute; reflexivity. Qed.

(** ** C5: the extraction example *)

(** C5.  For every document whose anchors carry, in document order, the
    hrefs [#top], [/], [/features/a], [https://other.com/x] and
    [https://github.com/features/b], and for the scope
    [https://github.com/features], the extractor returns exactly
    [https://github.com/features/a] and [https://github.com/features/b]. *)
Theorem extractUrls_five_anchors doc :
  map hrefValues (anchorsOf doc)
  = [["#top"]; ["/"]; ["/features/a"]; ["https://other.com/x"];
     ["https://github.com/features/b"]] ->
  extractUrls features (Some doc)
  = Returns (["https://github.com/features/a"; "https://github.com/features/b"], None).
Proof.
  intros H. unfold extractUrls. rewrite f_anchors, H. vm_compute. reflexivity.
Qed.

Lemma extractUrls_five_anchors_witness :
  extractUrls features (Some page5)
  = Returns (["https://github.com/features/a"; "https://github.com/features/b"], None).
Proof. apply extractUrls_five_anchors. vm_compute. reflexivity. Defined.

(** ** C6: the fetcher *)

Lemma download_contract_200 env : downloadContract env statusOK.
Proof.
  intros u w. unfold download, bind, print, emit, ret, logged. simpl.
  destruct (http_Get env (trace w ++ [EvPrint "downloading"]) u) as [resp|e] eqn:Hget.
  - unfold statusOK. destruct (StatusCode resp =? StatusOK)%N eqn:Hst; simpl.
    + destruct (Body resp) as [body|e] eqn:Hbody.
      * eexists _, _, _. split; [reflexivity|]. rewrite ?Hst, ?Hbody. simpl.
        split; [split; intros H; [contradiction | discriminate]|].
        intros _. exists resp, body. auto.
      * eexists _, _, _. split; [reflexivity|]. rewrite ?Hst, ?Hbody. simpl.
        split; [split; intros H; [reflexivity | discriminate] | discriminate].
    + eexists _, _, _. split; [reflexivity|]. rewrite ?Hst. simpl.
      split; [split; intros H; [reflexivity | discriminate] | discriminate].
  - eexists _, _, _. split; [reflexivity|]. simpl.
    split; [split; intros H; [reflexivity | discriminate] | discriminate].
Qed.

(** C6, as stated: [download] fails exactly on a transport error or a
    status outside 2xx.  It does not hold: a response with status 204
    and a readable body is an error for [download]. *)
Lemma download_rejects_204 : ~ downloadContract noContentEnv success2xx.
Proof.
  intros H. destruct (H "https://github.com/features" emptyWorld)
    as (data & err & w' & Hd & Herr & _).
  vm_compute in Hd. injection Hd as <- <- <-.
  destruct Herr as [Herr _]. vm_compute in Herr.
  specialize (Herr ltac:(discriminate)). discriminate.
Qed.

(** C6, amended: [download] returns an error exactly when the request
    fails, the status is not 200, or the body cannot be read; otherwise
    it returns the bytes of the body. *)
Theorem download_fails_unless_200 env : downloadContract env statusOK.
Proof. apply download_contract_200. Qed.

(** ** C7: normalization applied twice *)

(** C7.  The claim: normalizing twice gives what normalizing once
    gives.  [process] trims one slash from the raw string before it
    parses it (line 68), so a slash that ends the path of a URL with a
    query, or the first of two slashes, stays in the key; normalizing
    the key removes it. *)
Theorem normalize_twice_differs :
  normalize "https://github.com/features/?tab=1" = Some "https://github.com/features/"
  /\ normalize "https://github.com/features/" = Some "https://github.com/features"
  /\ normalize "https://github.com/features//" = Some "https://github.com/features/".
Proof. repeat split; vm_compute; reflexivity. Qed.

(** ** C8: a saved page is not downloaded again *)

(** C8.  For every URL that [process] accepts and whose page is in the
    mirror, [process] reads the page from the mirror: it makes no
    request and no save, the mirror stays as it was, and the goroutines
    it starts are those for the links of the saved page.  Hence a crawl
    that starts in a populated mirror (one that holds the page of the
    seed and of every link of a page it holds) makes no request and no
    save, however its goroutines are scheduled. *)
Theorem populated_mirror_no_fetch env :
  (forall target p c w,
     url.Parse (strings.TrimSuffix target "/") = Ok p ->
     ~ In (key p) (URLs w) ->
     files w !! pagePath env p = Some c ->
     exists o w',
       process env target w = (o, w')
       /\ URLs w' = URLs w ++ [key p]
       /\ files w' = files w
       /\ fetches (trace w') = fetches (trace w)
       /\ saves (trace w') = saves (trace w)
       /\ forall doc urls,
            html_Parse env c = Ok doc ->
            extractUrls p (Some doc) = Returns (urls, None) ->
            o = Returns None
            /\ trace w' = trace w ++ [EvReadFile (pagePath env p);
                                      EvPrint "already exists";
                                      EvPrint "extracting urls from"]
                          ++ map EvGo urls
            /\ goroutines w' = goroutines w ++ urls)
  /\ (forall S seed w schedule,
        populated env (files w) S ->
        In seed S ->
        let c := runSchedule env schedule (start seed w) in
        files (world c) = files w
        /\ fetches (trace (world c)) = fetches (trace w)
        /\ saves (trace (world c)) = saves (trace w)).
Proof.
  split.
  - intros target p c w. apply process_cache_hit.
  - intros S seed w schedule Hpop Hseed c.
    assert (H : offlineRun env (files w) (fetches (trace w)) (saves (trace w)) S c).
    { apply runSchedule_offline; [exact Hpop|].
      unfold offlineRun, start, started. simpl. repeat split.
      constructor; [exact Hseed | constructor]. }
    destruct H as (Hf & Hn & Hm & _). auto.
Qed.

Lemma populated_mirror_no_fetch_witness :
  (exists o w',
     process offlineEnv "https://example.com/docs" docsWorld = (o, w')
     /\ fetches (trace w') = 0 /\ saves (trace w') = 0
     /\ goroutines w' = ["https://example.com/docs/a"])
  /\ fetches (trace (world (runSchedule offlineEnv [0; 0; 0; 0; 1; 1; 1; 1]
                              (start "https://example.com/docs" docsWorld)))) = 0.
Proof.
  split.
  - destruct (proj1 (populated_mirror_no_fetch offlineEnv)
                "https://example.com/docs"
                (url.mkURL "https" "" None "example.com" "/docs" false false "" "")
                "docs" docsWorld)
      as (o & w' & Hp & _ & _ & Hf & Hs & Hl).
    + reflexivity.
    + simpl. tauto.
    + vm_compute. reflexivity.
    + exists o, w'. split; [exact Hp|]. split; [exact Hf|]. split; [exact Hs|].
      destruct (Hl docsPage ["https://example.com/docs/a"]) as (_ & _ & Hg).
      * reflexivity.
      * vm_compute. reflexivity.
      * exact Hg.
  - apply (proj2 (populated_mirror_no_fetch offlineEnv) docsSite
             "https://example.com/docs" docsWorld [0; 0; 0; 0; 1; 1; 1; 1]).
    + unfold populated, docsSite. constructor; [|constructor; [|constructor]].
      * eexists. split; [vm_compute; reflexivity|].
        exists "docs". split; [vm_compute; reflexivity|].
        intros doc urls Hd He. vm_compute in Hd. injection Hd as <-.
        vm_compute in He. injection He as <-.
        constructor; [|constructor]. simpl. auto.
      * eexists. split; [vm_compute; reflexivity|].
        exists "a". split; [vm_compute; reflexivity|].
        intros doc urls Hd He. vm_compute in Hd. injection Hd as <-.
        vm_compute in He. injection He as <-. constructor.
    + simpl. auto.
Defined.

(** ** C9: a malformed seed *)

(** C9.  The claim: when the seed fails to parse, [process] reports an
    error to its caller and the program stops.  The code prints the
    parse error (line 71) and goes on to read [parsedURL.Scheme] through
    the nil pointer (line 75): [process] panics and returns nothing, in
    every environment and world, and so does the call in [main]. *)
Theorem process_malformed_seed_panics env w :
  url.Parse (strings.TrimSuffix "http://example.com/%zz" "/") = Err "invalid URL escape"
  /\ process env "http://example.com/%zz" w
     = (Panics nilDeref, logged w [EvPrint "error parsing the target"])
  /\ mainCall env "http://example.com/%zz" w
     = (Panics nilDeref, logged w [EvPrint "error parsing the target"]).
Proof.
  assert (Hp : url.Parse (strings.TrimSuffix "http://example.com/%zz" "/")
               = Err "invalid URL escape") by reflexivity.
  split; [exact Hp|].
  assert (H : process env "http://example.com/%zz" w
              = (Panics nilDeref, logged w [EvPrint "error parsing the target"])).
  { unfold process, bind at 1. rewrite (parseAndCheck_err _ _ _ Hp). reflexivity. }
  split; [exact H|]. unfold mainCall, bind. rewrite H. reflexivity.
Qed.

(** ** C10: the error result of [process] *)

(** C10.  The claim: [process] returns nil for every input, every
    failure inside it being printed and swallowed.  The code does so
    for the errors of [download], [save], [parseHTML] and
    [extractUrls], and not for two others.  On a target that does not
    parse it prints the error (line 71) and reads the nil URL
    (line 75).  On a target whose path decodes to bytes that are not
    UTF-8, here [%ff], [url.Parse] succeeds, the page is downloaded
    and saved, and at its first link [checkIfChildren] compiles a
    pattern that is not UTF-8: [regexp.MustCompile] panics
    (line 286).  In both cases [process] does not return, and the
    call in [main] ends by this panic, not by [panic(err)]. *)
Theorem process_does_not_always_return :
  (forall env w,
     fst (process env "http://example.com/%zz" w) = Panics nilDeref
     /\ fst (mainCall env "http://example.com/%zz" w) = Panics nilDeref)
  /\ (exists p,
        url.Parse (strings.TrimSuffix "http://example.com/%ff" "/") = Ok p
        /\ utf8.ValidString (url.Host p +:+ url.Path p) = false)
  /\ fst (process onePageEnv "http://example.com/%ff" emptyWorld)
     = Panics "invalid UTF-8"
  /\ fst (mainCall onePageEnv "http://example.com/%ff" emptyWorld)
     = Panics "invalid UTF-8".
Proof.
  split; [|split; [|split]].
  - intros env w.
    assert (Hp : url.Parse (strings.TrimSuffix "http://example.com/%zz" "/")
                 = Err "invalid URL escape") by reflexivity.
    assert (H : process env "http://example.com/%zz" w
                = (Panics nilDeref, logged w [EvPrint "error parsing the target"])).
    { unfold process, bind at 1. rewrite (parseAndCheck_err _ _ _ Hp). reflexivity. }
    split; [rewrite H; reflexivity|].
    unfold mainCall, bind. rewrite H. reflexivity.
  - eexists. split; vm_compute; reflexivity.
  - vm_compute. reflexivity.
  - vm_compute. reflexivity.
Qed.

(** * Further properties *)

(** X2.  For a scope that is valid UTF-8, [checkIfChildren] returns,
    and it returns true exactly when the runes of the candidate are
    those of the scope, alone or followed by a slash and by runes none
    of which is a newline. *)
Theorem checkIfChildren_accepts input target :
  utf8.ValidString target = true ->
  checkIfChildren input target
  = Returns (childOf (utf8.runes target) (utf8.runes input)).
Proof. apply checkIfChildren_runes. Qed.

Lemma checkIfChildren_accepts_witness :
  checkIfChildren "github.com/features/a/b" "github.com/features"
  = Returns (childOf (utf8.runes "github.com/features")
                     (utf8.runes "github.com/features/a/b")).
Proof. apply checkIfChildren_accepts. vm_compute. reflexivity. Defined.

(** X3.  A call of [process] for a URL that is new and has no page in
    the mirror makes exactly one request, for the normalized URL,
    whatever the network answers and whether or not the call panics
    later. *)
Theorem process_miss_one_request env target p w :
  url.Parse (strings.TrimSuffix target "/") = Ok p ->
  ~ In (key p) (URLs w) ->
  files w !! pagePath env p = None ->
  fetches (trace (snd (process env target w))) = S (fetches (trace w))
  /\ requestsFor (key p) (trace (snd (process env target w)))
     = S (requestsFor (key p) (trace w)).
Proof.
  intros Hp Hnew Hfile. split.
  - rewrite (adds_process_miss env fetches fetches_app
               (fun _ => eq_refl) (fun _ => eq_refl) (fun _ => eq_refl)
               (fun _ => eq_refl) (fun _ => eq_refl) (fun _ _ => eq_refl)
               target p Hp w Hnew Hfile).
    simpl. lia.
  - rewrite (adds_process_miss env (requestsFor (key p)) (requestsFor_app (key p))
               (fun _ => eq_refl) (fun _ => eq_refl) (fun _ => eq_refl)
               (fun _ => eq_refl) (fun _ => eq_refl) (fun _ _ => eq_refl)
               target p Hp w Hnew Hfile).
    simpl. rewrite String.eqb_refl. lia.
Qed.

Lemma process_miss_one_request_witness :
  fetches (trace (snd (process liveEnv "https://github.com/features/" emptyWorld))) = 1
  /\ requestsFor "https://github.com/features"
       (trace (snd (process liveEnv "https://github.com/features/" emptyWorld))) = 1.
Proof.
  apply (process_miss_one_request liveEnv "https://github.com/features/" features
                                  emptyWorld).
  - reflexivity.
  - simpl. tauto.
  - apply lookup_empty.
Defined.

(** ** Trimming the slash *)

Lemma length_append (a b : string) :
  String.length (a +:+ b) = String.length a + String.length b.
Proof.
  induction a as [|x a IH]; [reflexivity|].
  rewrite append_cons. simpl. rewrite IH. reflexivity.
Qed.

Lemma drop_append (a b : string) : strings.drop (String.length a) (a +:+ b) = b.
Proof. induction a as [|x a IH]; [destruct b; reflexivity | exact IH]. Qed.

Lemma take_append (a b : string) : strings.take (String.length a) (a +:+ b) = a.
Proof.
  induction a as [|x a IH]; [destruct b; reflexivity|].
  rewrite append_cons. simpl. rewrite IH. reflexivity.
Qed.


Lemma HasSuffix_append (a suffix : string) : strings.HasSuffix (a +:+ suffix) suffix = true.
Proof.
  unfold strings.HasSuffix. rewrite length_append.
  replace (String.length a + String.length suffix - String.length suffix)
    with (String.length a) by lia.
  rewrite drop_append, String.eqb_refl.
  rewrite andb_true_r. apply Nat.leb_le. lia.
Qed.

Lemma TrimSuffix_append (a suffix : string) :
  strings.TrimSuffix (a +:+ suffix) suffix = a.
Proof.
  unfold strings.TrimSuffix. rewrite HasSuffix_append, length_append.
  replace (String.length a + String.length suffix - String.length suffix)
    with (String.length a) by lia.
  apply take_append.
Qed.


(** ** [extractUrls]: what the loop appends *)

Section extractUrls_links.

Variable p : url.URL.








End extractUrls_links.

(** ** What a crawl keeps: the visited list and the files *)

Section keeping.

Variable env : Env.

Lemma kept_refl w : kept w w.
Proof. split; auto. Qed.

Lemma kept_trans w1 w2 w3 : kept w1 w2 -> kept w2 w3 -> kept w1 w3.
Proof. intros [H1 F1] [H2 F2]. split; [congruence | auto]. Qed.

Lemma keeps_ret {A} (a : A) : keeps (ret a).
Proof. intros w. apply kept_refl. Qed.

Lemma keeps_panic {A} msg : keeps (@panic A msg).
Proof. intros w. apply kept_refl. Qed.

Lemma keeps_bind {A B} (m : M A) (k : A -> M B) :
  keeps m -> (forall x, keeps (k x)) -> keeps (bind m k).
Proof.
  intros Hm Hk w. unfold bind. specialize (Hm w).
  destruct (m w) as [[x|msg] w1]; simpl in *; [|exact Hm].
  eapply kept_trans; [exact Hm | apply Hk].
Qed.

Lemma keeps_emit e : keeps (emit e).
Proof. intros w. split; [reflexivity | auto]. Qed.

Lemma keeps_printIfErr msg err : keeps (printIfErr msg err).
Proof. destruct err; [apply keeps_emit | apply keeps_ret]. Qed.

Lemma keeps_setFile name data : keeps (setFile name data).
Proof.
  intros w. split; [reflexivity|]. intros n H. simpl.
  destruct (decide (name = n)) as [->|Hne].
  - rewrite lookup_insert_eq. eauto.
  - rewrite lookup_insert_ne by exact Hne. exact H.
Qed.

Lemma keeps_download u : keeps (download env u).
Proof.
  unfold download. apply keeps_bind; [apply keeps_emit|]. intros _ w.
  assert (H : keeps (bind (emit (EvHttpGet u)) (fun _ =>
                   match http_Get env (trace w) u with
                   | Ok resp =>
                       if negb (StatusCode resp =? StatusOK)%N
                       then ret (None, Some "invalid status code")
                       else match Body resp with
                            | Ok data => ret (Some data, None)
                            | Err err => ret (None, Some err)
                            end
                   | Err err => ret (None, Some err)
                   end))).
  { apply keeps_bind; [apply keeps_emit|]. intros _.
    destruct (http_Get env (trace w) u) as [resp|e]; [|apply keeps_ret].
    destruct (negb _); [apply keeps_ret|]. destruct (Body resp); apply keeps_ret. }
  apply H.
Qed.

Lemma keeps_checkForFile fp name : keeps (checkForFile fp name).
Proof.
  unfold checkForFile. apply keeps_bind; [apply keeps_emit|]. intros _ w.
  destruct (files w !! _);
    (apply keeps_bind; [apply keeps_emit | intros _; apply keeps_ret]).
Qed.

Lemma keeps_save fp name data : keeps (save env fp name data).
Proof.
  unfold save. intros w.
  destruct (os_MkdirAll env (trace w) fp).
  { apply keeps_bind; [apply keeps_emit | intros _; apply keeps_ret]. }
  revert w. change (keeps (bind (emit (EvMkdirAll fp)) (fun _ w =>
    match os_Create env (trace w) (fp +:+ "/" +:+ name) with
    | Some err => bind (emit (EvCreate (fp +:+ "/" +:+ name))) (fun _ => ret (Some err)) w
    | None =>
        bind (emit (EvCreate (fp +:+ "/" +:+ name))) (fun _ =>
        bind (setFile (fp +:+ "/" +:+ name) "") (fun _ w =>
          match file_Write env (trace w) (fp +:+ "/" +:+ name) with
          | Some err =>
              bind (emit (EvWrite (fp +:+ "/" +:+ name) (string_of_bytes data)))
                   (fun _ => ret (Some err)) w
          | None =>
              bind (emit (EvWrite (fp +:+ "/" +:+ name) (string_of_bytes data))) (fun _ =>
              bind (setFile (fp +:+ "/" +:+ name) (string_of_bytes data))
                   (fun _ => ret None)) w
          end)) w
    end))).
  apply keeps_bind; [apply keeps_emit|]. intros _ w.
  destruct (os_Create env (trace w) _).
  { apply keeps_bind; [apply keeps_emit | intros _; apply keeps_ret]. }
  apply keeps_bind; [apply keeps_emit|]. intros _.
  apply keeps_bind; [apply keeps_setFile|]. intros _ w1.
  destruct (file_Write env (trace w1) _).
  { apply keeps_bind; [apply keeps_emit | intros _; apply keeps_ret]. }
  apply keeps_bind; [apply keeps_emit|]. intros _.
  apply keeps_bind; [apply keeps_setFile | intros _; apply keeps_ret].
Qed.

Lemma keeps_rangeGo urls : keeps (rangeGo urls).
Proof.
  induction urls as [|u urls IH]; simpl; [apply keeps_ret|].
  apply keeps_bind; [|intros _; exact IH].
  unfold go. apply keeps_bind; [apply keeps_emit|].
  intros _ w. split; [reflexivity | auto].
Qed.

Lemma keeps_fetchAndFanOut t p sc : keeps (fetchAndFanOut env t p sc).
Proof.
  unfold fetchAndFanOut. destruct (pageFile env p) as [fp fileName].
  apply keeps_bind.
  - destruct sc; [apply keeps_ret|].
    apply keeps_bind; [apply keeps_download|]. intros [content err].
    apply keeps_bind; [apply keeps_printIfErr|]. intros _.
    apply keeps_bind; [apply keeps_save|]. intros err'.
    apply keeps_bind; [apply keeps_printIfErr | intros _; apply keeps_ret].
  - intros content.
    apply keeps_bind.
    { unfold parseHTML. destruct (html_Parse env _); apply keeps_ret. }
    intros [htmlContent err].
    apply keeps_bind; [apply keeps_printIfErr|]. intros _.
    apply keeps_bind; [apply keeps_emit|]. intros _.
    destruct (extractUrls p htmlContent) as [[urls e]|msg]; [|apply keeps_panic].
    apply keeps_bind; [apply keeps_printIfErr | intros _; apply keeps_rangeGo].
Qed.

Lemma keeps_parseAndCheck target : keeps (parseAndCheck target).
Proof.
  unfold parseAndCheck.
  apply keeps_bind; [apply keeps_printIfErr|]. intros _.
  apply keeps_bind.
  { unfold deref. destruct (url.Parse _); [apply keeps_ret | apply keeps_panic]. }
  intros p. apply keeps_bind; [|intros ok; apply keeps_ret].
  intros w. apply kept_refl.
Qed.

Lemma grown_refl w : grown w w.
Proof. split; [exists []; rewrite app_nil_r; reflexivity | auto]. Qed.

Lemma grown_trans w1 w2 w3 : grown w1 w2 -> grown w2 w3 -> grown w1 w3.
Proof.
  intros [[m1 H1] F1] [[m2 H2] F2]. split; [|auto].
  exists (m1 ++ m2). rewrite H2, H1, app_assoc. reflexivity.
Qed.

Lemma kept_grown w w' : kept w w' -> grown w w'.
Proof. intros [H F]. split; [exists []; rewrite app_nil_r; exact H | exact F]. Qed.

Lemma next_grown g w : grown w (snd (next env g w)).
Proof.
  destruct g as [raw | t p ok | t p | t p sc |]; cbn [next].
  - apply kept_grown.
    apply (keeps_bind (parseAndCheck raw)); [apply keeps_parseAndCheck|].
    intros [[t p] ok]. apply keeps_ret.
  - destruct ok; simpl; [apply grown_refl|].
    split; [exists [t]; reflexivity | auto].
  - apply kept_grown.
    apply (keeps_bind (checkForFile _ _)); [apply keeps_checkForFile|].
    intros sc. apply keeps_ret.
  - apply kept_grown.
    apply (keeps_bind (fetchAndFanOut env t p sc)); [apply keeps_fetchAndFanOut|].
    intros _. apply keeps_ret.
  - apply grown_refl.
Qed.

Lemma step_grown i c : grown (world c) (world (step env i c)).
Proof.
  unfold step. destruct (crashed c); [apply grown_refl|].
  destruct (running c !! i) as [g|]; [|apply grown_refl].
  pose proof (next_grown g (world c)) as H.
  destruct (next env g (world c)) as [[g'|msg] w']; exact H.
Qed.

Lemma runSchedule_grown schedule : forall c,
  grown (world c) (world (runSchedule env schedule c)).
Proof.
  induction schedule as [|i schedule IH]; intros c; [apply grown_refl|].
  simpl. eapply grown_trans; [apply step_grown | apply IH].
Qed.

End keeping.

(** ** Requests come after the append *)

Section counting_quiet.

Variable env : Env.
Variable count : list Event -> nat.
Hypothesis count_app : forall t1 t2, count (t1 ++ t2) = count t1 + count t2.
Hypothesis count_print : forall msg, count [EvPrint msg] = 0.
Hypothesis count_go : forall u, count [EvGo u] = 0.
Hypothesis count_read : forall u, count [EvReadFile u] = 0.

Lemma adds_checkForFile fp name : adds count 0 (checkForFile fp name).
Proof.
  unfold checkForFile.
  apply adds_bind; [apply adds_quiet; auto|].
  intros _ w.
  destruct (files w !! _);
    (apply adds_bind; [apply adds_quiet; auto | intros _; apply adds_ret]).
Qed.

Lemma adds_parseAndCheck target : adds count 0 (parseAndCheck target).
Proof.
  unfold parseAndCheck.
  apply adds_bind; [apply adds_printIfErr; auto|]. intros _.
  apply adds_bind.
  { unfold deref. destruct (url.Parse _); [apply adds_ret | apply adds_panic]. }
  intros p. apply adds_bind; [|intros ok; apply adds_ret].
  intros w. simpl. lia.
Qed.

Lemma adds_fetchAndFanOut_hit t p c : adds count 0 (fetchAndFanOut env t p (Some c)).
Proof.
  unfold fetchAndFanOut. destruct (pageFile env p) as [fp fileName].
  apply adds_bind; [apply adds_ret|].
  intros content.
  apply adds_bind.
  { unfold parseHTML. destruct (html_Parse env _); apply adds_ret. }
  intros [htmlContent err].
  apply adds_bind; [apply adds_printIfErr; auto|]. intros _.
  apply adds_bind; [apply adds_quiet; auto|]. intros _.
  destruct (extractUrls p htmlContent) as [[urls e]|msg]; [|apply adds_panic].
  apply adds_bind;
    [apply adds_printIfErr; auto | intros _; apply adds_rangeGo; auto].
Qed.

End counting_quiet.

Section claim_first.

Variable env : Env.
Variable u : string.

Lemma claims_app l1 l2 : claims u (l1 ++ l2) = claims u l1 + claims u l2.
Proof. induction l1 as [|x l1 IH]; simpl; lia. Qed.

Lemma owed_app g1 g2 : owed u (g1 ++ g2) = owed u g1 + owed u g2.
Proof. induction g1 as [|x g1 IH]; simpl; lia. Qed.

Lemma owed_called urls : owed u (map Called urls) = 0.
Proof. induction urls; simpl; auto. Qed.

Lemma owed_insert gs : forall i g g',
  gs !! i = Some g ->
  owed u (<[i := g']> gs) + owes u g = owed u gs + owes u g'.
Proof.
  induction gs as [|x gs IH]; intros i g g' H; [discriminate|].
  destruct i as [|i]; simpl in *.
  - injection H as ->. lia.
  - specialize (IH i g g' H). lia.
Qed.

Lemma owed_lookup gs i g : gs !! i = Some g -> owes u g <= owed u gs.
Proof.
  revert i. induction gs as [|x gs IH]; intros i H; [discriminate|].
  destruct i as [|i]; simpl in *.
  - injection H as ->. lia.
  - specialize (IH i H). lia.
Qed.

Lemma next_requests g w :
  requestsFor u (trace (snd (next env g w)))
  = requestsFor u (trace w) + requested u g.
Proof.
  assert (Happ := requestsFor_app u).
  destruct g as [raw | t p ok | t p | t p sc |]; cbn [next requested].
  - apply (adds_bind (requestsFor u) 0 (parseAndCheck raw));
      [apply adds_parseAndCheck; auto|].
    intros [[t p] ok]. apply adds_ret.
  - destruct ok; simpl; lia.
  - apply (adds_bind (requestsFor u) 0 (checkForFile _ _));
      [apply adds_checkForFile; auto|].
    intros sc. apply adds_ret.
  - destruct sc as [c|].
    + apply (adds_bind (requestsFor u) 0 (fetchAndFanOut env t p (Some c)));
        [apply adds_fetchAndFanOut_hit; auto|].
      intros _. apply adds_ret.
    + replace (if String.eqb t u then 1 else 0) with (requestsFor u [EvHttpGet t])
        by (simpl; lia).
      apply (adds_bind (requestsFor u) _ (fetchAndFanOut env t p None));
        [apply adds_fetchAndFanOut_miss; auto|].
      intros _. apply adds_ret.
  - simpl. lia.
Qed.

Lemma next_URLs g w : URLs (snd (next env g w)) = URLs w ++ appended g.
Proof.
  destruct g as [raw | t p ok | t p | t p sc |]; cbn [next appended];
    rewrite ?app_nil_r.
  - apply (keeps_bind (parseAndCheck raw)); [apply keeps_parseAndCheck|].
    intros [[t p] ok]. apply keeps_ret.
  - destruct ok; simpl; rewrite ?app_nil_r; reflexivity.
  - apply (keeps_bind (checkForFile _ _)); [apply keeps_checkForFile|].
    intros sc. apply keeps_ret.
  - apply (keeps_bind (fetchAndFanOut env t p sc)); [apply keeps_fetchAndFanOut|].
    intros _. apply keeps_ret.
  - reflexivity.
Qed.

Lemma next_owes g w g' :
  fst (next env g w) = Returns g' ->
  owes u g' + requested u g <= owes u g + claims u (appended g).
Proof.
  destruct g as [raw | t p ok | t p | t p sc |]; cbn [next requested appended owes].
  - unfold bind. destruct (parseAndCheck raw w) as [[[[t p] ok]|msg] w1]; simpl;
      [intros [= <-]; simpl; lia | discriminate].
  - destruct ok; simpl; intros [= <-]; simpl; lia.
  - unfold bind. destruct (checkForFile _ _ w) as [[sc|msg] w1]; simpl;
      [intros [= <-]; simpl; lia | discriminate].
  - unfold bind. destruct (fetchAndFanOut env t p sc w) as [[[]|msg] w1]; simpl;
      [|discriminate].
    intros [= <-]. simpl. destruct sc; lia.
  - simpl. intros [= <-]. simpl. lia.
Qed.

Lemma requested_owes g : requested u g <= owes u g.
Proof. destruct g as [| | | t p [c|] |]; simpl; lia. Qed.

Lemma step_claimedFirst i c : claimedFirst u c -> claimedFirst u (step env i c).
Proof.
  unfold claimedFirst, step. intros H.
  destruct (crashed c) eqn:Hcr; [rewrite Hcr; exact H|].
  destruct (running c !! i) as [g|] eqn:Hg; [|rewrite Hcr; exact H].
  pose proof (next_requests g (world c)) as Hreq.
  pose proof (next_URLs g (world c)) as Hurls.
  pose proof (next_owes g (world c)) as Howes.
  destruct (next env g (world c)) as [[g'|msg] w']; simpl in *.
  - specialize (Howes g' eq_refl).
    rewrite Hreq, Hurls, claims_app, owed_app, owed_called.
    pose proof (owed_insert (running c) i g g' Hg). lia.
  - rewrite Hreq, Hurls, claims_app.
    pose proof (owed_lookup (running c) i g Hg).
    pose proof (requested_owes g). lia.
Qed.

Lemma runSchedule_claimedFirst schedule : forall c,
  claimedFirst u c -> claimedFirst u (runSchedule env schedule c).
Proof.
  induction schedule as [|i schedule IH]; intros c H; [exact H|].
  simpl. apply IH, step_claimedFirst, H.
Qed.

End claim_first.

(** ** What a call saves *)

Section saving.

Variable env : Env.

Lemma save_frame fp name data w :
  let r := save env fp name data w in
  URLs (snd r) = URLs w
  /\ goroutines (snd r) = goroutines w
  /\ (forall other, other <> fp +:+ "/" +:+ name ->
                    files (snd r) !! other = files w !! other)
  /\ (fst r = Returns None ->
      files (snd r) !! (fp +:+ "/" +:+ name) = Some (string_of_bytes data)).
Proof.
  unfold save, bind, emit, setFile, ret, logged. simpl.
  destruct (os_MkdirAll env (trace w) fp); simpl.
  { repeat split; auto. discriminate. }
  destruct (os_Create env (trace w ++ [EvMkdirAll fp]) _); simpl.
  { repeat split; auto. discriminate. }
  destruct (file_Write env _ _); simpl.
  - repeat split; auto.
    + intros other Hne. rewrite lookup_insert_ne by auto. reflexivity.
    + discriminate.
  - repeat split; auto.
    + intros other Hne. rewrite !lookup_insert_ne by auto. reflexivity.
    + intros _. apply lookup_insert_eq.
Qed.

Lemma save_cooperative fp name data w :
  cooperative env ->
  fst (save env fp name data w) = Returns None.
Proof.
  intros (Hm & Hc & Hw). unfold save, bind, emit, setFile, ret, logged. simpl.
  rewrite Hm. simpl. rewrite Hc. simpl. rewrite Hw. reflexivity.
Qed.

Lemma sameFiles_ret {A} (a : A) : sameFiles (ret a).
Proof. intros w. reflexivity. Qed.

Lemma sameFiles_panic {A} msg : sameFiles (@panic A msg).
Proof. intros w. reflexivity. Qed.

Lemma sameFiles_bind {A B} (m : M A) (k : A -> M B) :
  sameFiles m -> (forall x, sameFiles (k x)) -> sameFiles (bind m k).
Proof.
  intros Hm Hk w. unfold bind. specialize (Hm w).
  destruct (m w) as [[x|msg] w1]; simpl in *; [|exact Hm].
  rewrite Hk. exact Hm.
Qed.

Lemma sameFiles_emit e : sameFiles (emit e).
Proof. intros w. reflexivity. Qed.

Lemma sameFiles_printIfErr msg err : sameFiles (printIfErr msg err).
Proof. destruct err; [apply sameFiles_emit | apply sameFiles_ret]. Qed.

Lemma sameFiles_rangeGo urls : sameFiles (rangeGo urls).
Proof. intros w. rewrite rangeGo_spec. reflexivity. Qed.

Lemma sameFiles_download u : sameFiles (download env u).
Proof.
  intros w. unfold download, bind, print, emit, ret, logged. simpl.
  destruct (http_Get env _ u) as [resp|e]; [|reflexivity].
  destruct (negb _); [reflexivity|]. destruct (Body resp); reflexivity.
Qed.

Lemma files_bind_tail {A B} (m : M A) (k : A -> M B) w :
  (forall x, sameFiles (k x)) ->
  files (snd (bind m k w)) = files (snd (m w)).
Proof.
  intros Hk. unfold bind. destruct (m w) as [[x|msg] w1]; simpl; [apply Hk | reflexivity].
Qed.

(** On a miss the page file holds, after the call, what [download]
    returned. *)
Lemma fetchAndFanOut_miss_saves t p w content err w1 :
  cooperative env ->
  download env t w = (Returns (content, err), w1) ->
  files (snd (fetchAndFanOut env t p None w)) !! pagePath env p
  = Some (string_of_bytes content).
Proof.
  intros Hos Hd. unfold fetchAndFanOut, pagePath.
  destruct (pageFile env p) as [fp fileName]. simpl fst. simpl snd.
  rewrite files_bind_tail.
  2:{ intros c.
      apply sameFiles_bind.
      { unfold parseHTML. destruct (html_Parse env _); apply sameFiles_ret. }
      intros [htmlContent e].
      apply sameFiles_bind; [apply sameFiles_printIfErr|]. intros _.
      apply sameFiles_bind; [apply sameFiles_emit|]. intros _.
      destruct (extractUrls p htmlContent) as [[urls e']|msg]; [|apply sameFiles_panic].
      apply sameFiles_bind; [apply sameFiles_printIfErr | intros _; apply sameFiles_rangeGo]. }
  unfold bind at 1. rewrite Hd.
  unfold bind at 1.
  destruct (printIfErr "error downloading the target" err w1) as [[[]|msg] w2] eqn:Hp.
  2:{ destruct err; discriminate. }
  pose proof (save_frame fp fileName content w2) as (_ & _ & _ & Hs).
  pose proof (save_cooperative fp fileName content w2 Hos) as Hok.
  specialize (Hs Hok).
  unfold bind at 1.
  destruct (save env fp fileName content w2) as [[e|msg] w3]; simpl in *;
    [|discriminate].
  injection Hok as ->. simpl. exact Hs.
Qed.

Lemma process_miss_saves target p w content err w1 :
  cooperative env ->
  url.Parse (strings.TrimSuffix target "/") = Ok p ->
  ~ In (key p) (URLs w) ->
  files w !! pagePath env p = None ->
  download env (key p)
    (logged (mkWorld (URLs w ++ [key p]) (files w) (trace w) (goroutines w))
            [EvReadFile (pagePath env p);
             EvPrint "does not exist. downloading and saving..."])
  = (Returns (content, err), w1) ->
  files (snd (process env target w)) !! pagePath env p
  = Some (string_of_bytes content).
Proof.
  intros Hos Hp Hnew Hfile Hd.
  assert (Hex : existsb (String.eqb (key p)) (URLs w) = false).
  { apply not_true_is_false. intros H. apply existsb_exists in H as (x & Hin & Hx).
    apply String.eqb_eq in Hx. subst x. exact (Hnew Hin). }
  unfold process. unfold bind at 1. rewrite (parseAndCheck_ok target p w Hp), Hex.
  cbv beta iota. simpl negb. cbv iota.
  rewrite files_bind_tail by (intros x; apply sameFiles_ret).
  unfold bind at 1. unfold markVisited.
  unfold bind at 1.
  rewrite checkForFile_miss by exact Hfile.
  eapply fetchAndFanOut_miss_saves; [exact Hos | exact Hd].
Qed.

End saving.

Section fetching.

Variable env : Env.

Lemma download_ok u w resp body :
  http_Get env (trace w ++ [EvPrint "downloading"]) u = Ok resp ->
  StatusCode resp = StatusOK ->
  Body resp = Ok body ->
  download env u w
  = (Returns (Some body, None), logged w [EvPrint "downloading"; EvHttpGet u]).
Proof.
  intros Hget Hst Hbody. unfold download, bind, print, emit, ret, logged. simpl.
  rewrite Hget, Hst, Hbody. simpl. rewrite <- app_assoc. reflexivity.
Qed.

Lemma download_failed u w :
  fetchFails statusOK (http_Get env (trace w ++ [EvPrint "downloading"]) u) = true ->
  exists err,
    download env u w
    = (Returns (None, Some err), logged w [EvPrint "downloading"; EvHttpGet u]).
Proof.
  unfold download, bind, print, emit, ret, logged, fetchFails, statusOK. simpl.
  destruct (http_Get env _ u) as [resp|e]; simpl.
  - destruct (StatusCode resp =? StatusOK)%N; simpl.
    + destruct (Body resp) as [body|e]; [discriminate|].
      intros _. exists e. rewrite <- app_assoc. reflexivity.
    + intros _. eexists. rewrite <- app_assoc. reflexivity.
  - intros _. exists e. rewrite <- app_assoc. reflexivity.
Qed.

End fetching.

Lemma process_marks env target p w :
  url.Parse (strings.TrimSuffix target "/") = Ok p ->
  In (key p) (URLs (snd (process env target w))).
Proof.
  intros Hp. unfold process. unfold bind at 1.
  rewrite (parseAndCheck_ok target p w Hp).
  destruct (existsb (String.eqb (key p)) (URLs w)) eqn:Hex; cbv beta iota; simpl negb;
    cbv iota.
  - apply existsb_exists in Hex as (x & Hin & Hx).
    apply String.eqb_eq in Hx. subst x. exact Hin.
  - unfold bind at 1. unfold bind at 1. unfold markVisited.
    match goal with
    | |- In _ (URLs (snd (match ?m ?w1 with _ => _ end))) =>
        assert (H : URLs (snd (m w1)) = URLs w1)
    end.
    { apply (keeps_bind (checkForFile _ _)); [apply keeps_checkForFile|].
      intros sc. apply keeps_fetchAndFanOut. }
    match goal with
    | |- In _ (URLs (snd (match ?m ?w1 with _ => _ end))) =>
        destruct (m w1) as [[[]|msg] w2]
    end; simpl in *; rewrite H; apply in_or_app; right; left; reflexivity.
Qed.

(** ** [url.Parse] on a host with a port, [checkIfChildren] on a scope
    that is not UTF-8 *)

Section bytes.

Lemma allBytes_impl (P Q : ascii -> bool) s :
  (forall c, P c = true -> Q c = true) -> allBytes P s = true -> allBytes Q s = true.
Proof.
  intros H. induction s as [|c s IH]; simpl; [auto|].
  intros Hs. apply andb_prop in Hs as [Hc Hs]. rewrite (H c Hc), (IH Hs). reflexivity.
Qed.

Lemma allBytes_app P a b :
  allBytes P (a +:+ b) = allBytes P a && allBytes P b.
Proof.
  induction a as [|c a IH]; [reflexivity|].
  rewrite append_cons. simpl. rewrite IH, andb_assoc. reflexivity.
Qed.

Lemma Index_skip c a s :
  allBytes (fun b => negb (Ascii.eqb b c)) a = true ->
  strings.Index (a +:+ s) (String c "")
  = option_map (Nat.add (String.length a)) (strings.Index s (String c "")).
Proof.
  induction a as [|x a IH]; intros Ha.
  - rewrite append_nil. simpl. destruct (strings.Index s _); reflexivity.
  - simpl in Ha. apply andb_prop in Ha as [Hx Ha].
    rewrite append_cons. simpl strings.Index.
    apply negb_true_iff in Hx. rewrite Hx. simpl.
    rewrite (IH Ha). destruct (strings.Index s _); reflexivity.
Qed.

Lemma take_skip a s i :
  strings.take (String.length a + i) (a +:+ s) = a +:+ strings.take i s.
Proof.
  induction a as [|x a IH]; [reflexivity|].
  rewrite !append_cons. simpl. rewrite IH. reflexivity.
Qed.

Lemma drop_skip a s i :
  strings.drop (String.length a + i) (a +:+ s) = strings.drop i s.
Proof. induction a as [|x a IH]; [reflexivity | exact IH]. Qed.

Lemma Cut_skip c a s :
  allBytes (fun b => negb (Ascii.eqb b c)) a = true ->
  strings.Cut (a +:+ s) (String c "")
  = (a +:+ fst (fst (strings.Cut s (String c ""))),
     snd (fst (strings.Cut s (String c ""))),
     snd (strings.Cut s (String c ""))).
Proof.
  intros Ha. unfold strings.Cut. rewrite (Index_skip c a s Ha).
  destruct (strings.Index s _) as [i|]; simpl; [|reflexivity].
  rewrite take_skip. rewrite <- Nat.add_assoc, drop_skip. reflexivity.
Qed.

Lemma HasPrefix_nil s : strings.HasPrefix s "" = true.
Proof. destruct s; reflexivity. Qed.

Lemma Index_found a c s : strings.Index (a +:+ String c s) (String c "") <> None.
Proof.
  induction a as [|x a IH].
  - rewrite append_nil. simpl. rewrite Ascii.eqb_refl, HasPrefix_nil. discriminate.
  - rewrite append_cons. simpl strings.Index. rewrite HasPrefix_nil.
    destruct (Ascii.eqb x c); simpl; [discriminate|].
    destruct (strings.Index _ _); simpl; [discriminate | exact IH].
Qed.

Lemma Contains_found a c s : strings.Contains (a +:+ String c s) (String c "") = true.
Proof.
  unfold strings.Contains. pose proof (Index_found a c s).
  destruct (strings.Index _ _); [reflexivity | contradiction].
Qed.

Lemma HasPrefix_take n s c :
  strings.HasPrefix (strings.take n s) (String c "") = true ->
  strings.HasPrefix s (String c "") = true.
Proof.
  destruct n as [|n], s as [|x s]; simpl; try discriminate.
  rewrite !HasPrefix_nil. auto.
Qed.

Lemma HasPrefix_Cut s sep c :
  strings.HasPrefix (fst (fst (strings.Cut s sep))) (String c "") = true ->
  strings.HasPrefix s (String c "") = true.
Proof.
  unfold strings.Cut. destruct (strings.Index s sep); simpl; [apply HasPrefix_take | auto].
Qed.

Lemma Index_cons x s sep :
  strings.Index (String x s) sep
  = if strings.HasPrefix (String x s) sep then Some O
    else option_map S (strings.Index s sep).
Proof. reflexivity. Qed.

Lemma Index_drop s sep : forall i,
  strings.Index s sep = Some i -> strings.HasPrefix (strings.drop i s) sep = true.
Proof.
  induction s as [|x s IH]; intros i.
  - destruct sep; simpl; [intros [= <-]; reflexivity | discriminate].
  - rewrite Index_cons. destruct (strings.HasPrefix (String x s) sep) eqn:H.
    + intros [= <-]. exact H.
    + destruct (strings.Index s sep) as [j|]; [|discriminate].
      simpl. intros [= <-]. apply IH. reflexivity.
Qed.

End bytes.

Section port.

Lemma hostByte_plain c : hostByte c = true -> url.oneof c "#?/:*" = false.
Proof. destruct c as [[] [] [] [] [] [] [] []]; vm_compute; congruence. Qed.

Lemma isdigit_plain c : url.isdigit c = true -> url.oneof c "#?/:*" = false.
Proof. destruct c as [[] [] [] [] [] [] [] []]; vm_compute; congruence. Qed.

Lemma hostByte_scheme c :
  hostByte c = true -> url.isletter c = false ->
  url.isdigit c || url.oneof c "+-." = true.
Proof. destruct c as [[] [] [] [] [] [] [] []]; vm_compute; congruence. Qed.

Lemma alldigits_allBytes s : url.alldigits s = true -> allBytes url.isdigit s = true.
Proof. induction s as [|c s IH]; simpl; [auto|]. intros H.
  apply andb_prop in H as [Hc Hs]. rewrite Hc, (IH Hs). reflexivity. Qed.

Lemma getScheme_from_scan nm : forall i raw after,
  allBytes hostByte nm = true ->
  url.getScheme_from (S i) raw (nm +:+ String ":" after)
  = Ok (strings.take (S i + String.length nm) raw, after).
Proof.
  induction nm as [|c nm IH]; intros i raw after H.
  - rewrite append_nil. cbn [url.getScheme_from]. simpl String.length.
    rewrite Nat.add_0_r. reflexivity.
  - simpl in H. apply andb_prop in H as [Hc Hnm].
    rewrite append_cons. cbn [url.getScheme_from].
    destruct (url.isletter c) eqn:Hl.
    + rewrite (IH (S i) raw after Hnm). simpl String.length.
      rewrite Nat.add_succ_r. reflexivity.
    + rewrite (hostByte_scheme c Hc Hl).
      rewrite (IH (S i) raw after Hnm). simpl String.length.
      rewrite Nat.add_succ_r. reflexivity.
Qed.

Lemma getScheme_letter c nm after :
  url.isletter c = true ->
  allBytes hostByte nm = true ->
  url.getScheme (String c nm +:+ String ":" after) = Ok (String c nm, after).
Proof.
  intros Hl Hnm. unfold url.getScheme. rewrite append_cons.
  cbn [url.getScheme_from]. rewrite Hl.
  rewrite (getScheme_from_scan nm 0 _ after Hnm).
  simpl strings.take. rewrite take_append. reflexivity.
Qed.

Lemma getScheme_other c rest :
  hostByte c = true -> url.isletter c = false ->
  url.getScheme (String c rest) = Ok ("", String c rest).
Proof.
  intros Hc Hl. unfold url.getScheme. cbn [url.getScheme_from].
  rewrite Hl, (hostByte_scheme c Hc Hl). reflexivity.
Qed.

(** The part of [rest] that [parse] keeps as the path or the opaque
    part: [rest] without its query. *)
Lemma query_cut_prefix rest :
  exists n,
    fst (fst (if strings.HasSuffix rest "?" && (url.Count rest "?" =? 1)%nat
              then (strings.take (String.length rest - 1) rest, true, "")
              else let '(r, q, _) := strings.Cut rest "?" in (r, false, q)))
    = strings.take n rest
    /\ (forall a s, rest = a +:+ s -> s <> "" ->
        allBytes (fun b => negb (Ascii.eqb b "?")) a = true ->
        String.length a <= n).
Proof.
  destruct (strings.HasSuffix rest "?" && (url.Count rest "?" =? 1)%nat).
  - exists (String.length rest - 1). split; [reflexivity|].
    intros a s -> Hs _. rewrite length_append.
    destruct s; [contradiction|]. simpl. lia.
  - unfold strings.Cut. destruct (strings.Index rest "?") as [i|] eqn:Hi.
    + exists i. split; [reflexivity|].
      intros a s -> _ Ha. rewrite (Index_skip "?" a s Ha) in Hi.
      destruct (strings.Index s "?"); [|discriminate].
      simpl in Hi. injection Hi as <-. lia.
    + exists (String.length rest). split.
      * simpl. clear Hi. induction rest as [|x rest IH]; [reflexivity|].
        simpl. rewrite <- IH. reflexivity.
      * intros a s -> _ _. rewrite length_append. lia.
Qed.

Lemma hostByte_not c x :
  hostByte c = true -> url.oneof x "#?/" = true -> negb (Ascii.eqb c x) = true.
Proof.
  intros Hc Hx. simpl in Hx. rewrite orb_false_r in Hx.
  apply hostByte_plain in Hc.
  destruct (Ascii.eqb c x) eqn:E; [|reflexivity].
  apply Ascii.eqb_eq in E. subst x. simpl in Hc.
  repeat (apply orb_false_elim in Hc as [? Hc]).
  repeat (apply orb_prop in Hx as [Hx|Hx]; [congruence|]). congruence.
Qed.

Lemma isdigit_not c x :
  url.isdigit c = true -> url.oneof x "#?/" = true -> negb (Ascii.eqb c x) = true.
Proof.
  intros Hc Hx. simpl in Hx. rewrite orb_false_r in Hx.
  apply isdigit_plain in Hc.
  destruct (Ascii.eqb c x) eqn:E; [|reflexivity].
  apply Ascii.eqb_eq in E. subst x. simpl in Hc.
  repeat (apply orb_false_elim in Hc as [? Hc]).
  repeat (apply orb_prop in Hx as [Hx|Hx]; [congruence|]). congruence.
Qed.

Lemma colon_not x : url.oneof x "#?/" = true -> negb (Ascii.eqb ":" x) = true.
Proof.
  intros Hx. simpl in Hx. rewrite orb_false_r in Hx.
  destruct (Ascii.eqb ":" x) eqn:E; [|reflexivity].
  apply Ascii.eqb_eq in E. subst x. discriminate.
Qed.

Lemma port_plain x c0 nm d pt :
  url.oneof x "#?/" = true ->
  hostByte c0 = true -> allBytes hostByte nm = true ->
  url.isdigit d = true -> url.alldigits pt = true ->
  allBytes (fun b => negb (Ascii.eqb b x)) (String c0 nm +:+ String ":" (String d pt))
  = true.
Proof.
  intros Hx Hc0 Hnm Hd Hpt. rewrite allBytes_app. cbn [allBytes].
  rewrite (hostByte_not c0 x Hc0 Hx), (colon_not x Hx), (isdigit_not d x Hd Hx).
  rewrite (allBytes_impl hostByte _ nm (fun c H => hostByte_not c x H Hx) Hnm).
  rewrite (allBytes_impl url.isdigit _ pt (fun c H => isdigit_not c x H Hx)
             (alldigits_allBytes pt Hpt)).
  reflexivity.
Qed.

Lemma parse_port c0 nm d pt x :
  hostByte c0 = true -> allBytes hostByte nm = true ->
  url.isdigit d = true -> url.alldigits pt = true ->
  match url.parse ((String c0 nm +:+ String ":" (String d pt)) +:+ String "/" x) false with
  | Ok q => url.Path q = ""
  | Err _ => True
  end.
Proof.
  intros Hc0 Hnm Hd Hpt. unfold url.parse.
  set (B := String c0 nm +:+ String ":" (String d pt)).
  set (raw := B +:+ String "/" x).
  destruct (url.stringContainsCTLByte raw); [exact I|].
  rewrite andb_false_r.
  destruct (String.eqb raw "*") eqn:Hstar.
  { apply String.eqb_eq in Hstar. subst raw B.
    rewrite !append_cons in Hstar. injection Hstar as _ H.
    destruct nm; discriminate. }
  destruct (url.isletter c0) eqn:Hl.
  - assert (Hraw : raw = String c0 nm +:+ String ":" (String d (pt +:+ String "/" x))).
    { subst raw B. rewrite append_assoc, !append_cons. reflexivity. }
    rewrite Hraw, (getScheme_letter c0 nm _ Hl Hnm).
    set (rest := String d (pt +:+ String "/" x)).
    destruct (query_cut_prefix rest) as (n & Hn & _).
    match goal with
    | |- context [if ?c then (?a, true, "") else ?b] =>
        destruct (if c then (a, true, "") else b) as [[rest1 fq] rq]
    end.
    simpl in Hn. subst rest1.
    assert (Hp : strings.HasPrefix (strings.take n rest) "/" = false).
    { destruct (strings.HasPrefix (strings.take n rest) "/") eqn:E; [|reflexivity].
      apply HasPrefix_take in E. subst rest. simpl in E.
      pose proof (isdigit_not d "/" Hd eq_refl) as Hne.
      apply negb_true_iff in Hne. rewrite Hne in E. discriminate. }
    rewrite Hp. simpl. reflexivity.
  - assert (Hraw : raw = String c0 ((nm +:+ String ":" (String d pt)) +:+ String "/" x)).
    { subst raw B. reflexivity. }
    assert (Hg : url.getScheme raw = Ok ("", raw)).
    { rewrite Hraw. apply (getScheme_other c0 _ Hc0 Hl). }
    rewrite Hg. clear Hg Hraw.
    destruct (query_cut_prefix raw) as (n & Hn & Hlen).
    match goal with
    | |- context [if ?c then (?a, true, "") else ?b] =>
        destruct (if c then (a, true, "") else b) as [[rest1 fq] rq]
    end.
    simpl in Hn. subst rest1.
    specialize (Hlen B (String "/" x) eq_refl ltac:(discriminate)
                  (port_plain "?" c0 nm d pt eq_refl Hc0 Hnm Hd Hpt)).
    assert (Htake : strings.take n raw
                    = B +:+ strings.take (n - String.length B) (String "/" x)).
    { replace n with (String.length B + (n - String.length B)) at 1 by lia.
      apply take_skip. }
    rewrite Htake.
    set (r := strings.take (n - String.length B) (String "/" x)).
    assert (Hp : strings.HasPrefix (B +:+ r) "/" = false).
    { subst B. rewrite !append_cons. simpl.
      pose proof (hostByte_not c0 "/" Hc0 eq_refl) as Hne.
      apply negb_true_iff in Hne. rewrite Hne. reflexivity. }
    rewrite Hp. simpl.
    rewrite (Cut_skip "/" B r (port_plain "/" c0 nm d pt eq_refl Hc0 Hnm Hd Hpt)).
    simpl fst.
    assert (Hc : strings.Contains (B +:+ fst (fst (strings.Cut r "/"))) ":" = true).
    { subst B. rewrite append_assoc.
      exact (Contains_found (String c0 nm) ":"
               (String d pt +:+ fst (fst (strings.Cut r "/")))). }
    rewrite Hc. exact I.
Qed.

End port.

Section invalid_scope.

Lemma ValidString_cons_ascii b s :
  (N_of_ascii b <? 128)%N = true ->
  utf8.ValidString (String b s) = utf8.ValidString s.
Proof. intros H. unfold utf8.ValidString. rewrite (decode_ascii b s H). reflexivity. Qed.

Lemma allhigh_prefix chunk : forall t suffix s',
  allhigh chunk ->
  (forall h rest, suffix = String h rest -> (N_of_ascii h < 128)%N) ->
  regexp.QuoteMeta t +:+ suffix = chunk +:+ s' ->
  exists t', t = chunk +:+ t' /\ s' = regexp.QuoteMeta t' +:+ suffix.
Proof.
  induction chunk as [|h chunk IH]; intros t suffix s' Hh Hsuf E.
  - exists t. rewrite append_nil in E. split; [reflexivity | auto].
  - destruct Hh as [Hh Hchunk]. rewrite append_cons in E.
    destruct t as [|c t].
    + simpl in E. rewrite append_nil in E. specialize (Hsuf _ _ E). lia.
    + simpl in E. destruct (regexp.special c) eqn:Hs.
      * rewrite append_cons in E.
        assert (E1 : h = "\"%char) by congruence. subst h.
        vm_compute in Hh. contradiction Hh. reflexivity.
      * rewrite append_cons in E.
        assert (E1 : c = h) by congruence.
        assert (E2 : regexp.QuoteMeta t +:+ suffix = chunk +:+ s') by congruence.
        subst c.
        destruct (IH t suffix s' Hchunk Hsuf E2) as (t' & -> & ->).
        exists t'. split; reflexivity.
Qed.

Lemma ValidString_QuoteMeta n : forall t suffix,
  String.length t <= n ->
  (forall h rest, suffix = String h rest -> (N_of_ascii h < 128)%N) ->
  utf8.ValidString (regexp.QuoteMeta t +:+ suffix) = true ->
  utf8.ValidString t = true.
Proof.
  induction n as [|n IH]; intros t suffix Hlen Hsuf Hv.
  { destruct t; [reflexivity | simpl in Hlen; lia]. }
  destruct t as [|b t]; [reflexivity|].
  destruct (N_of_ascii b <? 128)%N eqn:Hb.
  - rewrite (ValidString_cons_ascii b t Hb).
    apply (IH t suffix); [simpl in Hlen; lia | exact Hsuf|].
    simpl in Hv. destruct (regexp.special b).
    + rewrite !append_cons in Hv.
      rewrite (ValidString_cons_ascii "\") in Hv by reflexivity.
      rewrite (ValidString_cons_ascii b _ Hb) in Hv. exact Hv.
    + rewrite append_cons in Hv.
      rewrite (ValidString_cons_ascii b _ Hb) in Hv. exact Hv.
  - assert (Hq : regexp.QuoteMeta (String b t) = String b (regexp.QuoteMeta t)).
    { simpl. rewrite not_special_high; [reflexivity|]. apply N.ltb_ge in Hb. exact Hb. }
    rewrite Hq, append_cons in Hv.
    unfold utf8.ValidString in Hv.
    destruct (utf8.decode (String b (regexp.QuoteMeta t +:+ suffix))) as [|[c|] l] eqn:Hd.
    + simpl in Hd. rewrite Hb in Hd.
      destruct (utf8.first b) as [[[sz lo] hi]|]; [|discriminate].
      destruct (regexp.QuoteMeta t +:+ suffix) as [|b1 s2]; [discriminate|].
      destruct (negb (utf8.inrange lo hi b1)); [discriminate|].
      destruct sz; try discriminate;
        destruct s2 as [|b2 s3]; try discriminate;
        destruct (negb (utf8.inrange 128 191 b2)); try discriminate.
      destruct s3 as [|b3 s4]; [discriminate|].
      destruct (negb (utf8.inrange 128 191 b3)); discriminate.
    + destruct (decode_multibyte b _ c l Hb Hd) as (chunk & s' & E & Hlt & Hhigh & _ & Hdec).
      rewrite <- append_cons, <- Hq in E.
      destruct (allhigh_prefix chunk (String b t) suffix s' Hhigh Hsuf E) as (t' & Et & Es).
      rewrite Et. unfold utf8.ValidString. rewrite Hdec. simpl.
      apply (IH t' suffix); [|exact Hsuf|].
      * assert (Hl := f_equal String.length Et). rewrite length_append in Hl.
        assert (Hl2 := f_equal String.length E).
        rewrite Hq, append_cons, length_append in Hl2. simpl in Hl2, Hl, Hlt, Hlen.
        destruct chunk; [simpl in Hl2; lia | simpl in Hl; lia].
      * rewrite <- append_cons, <- Hq, E, Hdec in Hd.
        injection Hd as <-. simpl in Hv. subst s'. exact Hv.
    + simpl in Hv. discriminate.
Qed.

Lemma checkIfChildren_invalid input target :
  utf8.ValidString target = false ->
  checkIfChildren input target = Panics "invalid UTF-8".
Proof.
  intros Hinv. unfold checkIfChildren, regexp.Compile.
  destruct (utf8.ValidString ("^" +:+ regexp.QuoteMeta target +:+ "(?:\/.*|)$")) eqn:Hv;
    [|reflexivity].
  rewrite append_cons, append_nil in Hv.
  rewrite (ValidString_cons_ascii "^") in Hv by reflexivity.
  apply (ValidString_QuoteMeta (String.length target)) in Hv; [congruence | lia |].
  intros h rest [= <- _]. vm_compute. reflexivity.
Qed.

Lemma decode_nonempty s : utf8.decode s = [] -> s = "".
Proof.
  destruct s as [|b s]; [reflexivity|]. simpl.
  destruct (N_of_ascii b <? 128)%N; [discriminate|].
  destruct (utf8.first b) as [[[sz lo] hi]|]; [|discriminate].
  destruct s as [|b1 s2]; [discriminate|].
  destruct (negb (utf8.inrange lo hi b1)); [discriminate|].
  destruct sz; try discriminate;
    destruct s2 as [|b2 s3]; try discriminate;
    destruct (negb (utf8.inrange 128 191 b2)); try discriminate.
  destruct s3 as [|b3 s4]; [discriminate|].
  destruct (negb (utf8.inrange 128 191 b3)); discriminate.
Qed.

Lemma checkIfChildren_empty target :
  checkIfChildren "" target = Returns true -> target = "".
Proof.
  destruct (utf8.ValidString target) eqn:Hv.
  - rewrite (checkIfChildren_runes "" target Hv).
    intros [= H]. unfold childOf in H. change (utf8.runes "") with (@nil N) in H.
    destruct (utf8.runes target) as [|r rs] eqn:Hr; [|discriminate].
    unfold utf8.runes in Hr. apply map_eq_nil in Hr. apply decode_nonempty, Hr.
  - rewrite (checkIfChildren_invalid "" target Hv). discriminate.
Qed.

End invalid_scope.

Section port_links.

Lemma HasPrefix_slash val :
  strings.HasPrefix val "/" = true -> exists v, val = String "/" v.
Proof.
  destruct val as [|c v]; simpl; [discriminate|].
  rewrite HasPrefix_nil, andb_true_r. intros H. apply Ascii.eqb_eq in H. subst c.
  exists v. reflexivity.
Qed.

Lemma setFragment_Path u frag q :
  url.setFragment u frag = Ok q -> url.Path q = url.Path u /\ url.Host q = url.Host u.
Proof.
  unfold url.setFragment. destruct (url.unescape frag url.encodeFragment); [|discriminate].
  intros [= <-]. split; reflexivity.
Qed.

Lemma Parse_port_rooted host val :
  hasPort host ->
  strings.HasPrefix val "/" = true ->
  match url.Parse (host +:+ val) with
  | Ok q => url.Path q = ""
  | Err _ => True
  end.
Proof.
  intros (name & port & -> & Hname & Hnm & Hport & Hpt) Hval.
  destruct name as [|c0 nm]; [contradiction|].
  destruct port as [|d pt]; [contradiction|].
  simpl in Hnm, Hpt. apply andb_prop in Hnm as [Hc0 Hnm]. apply andb_prop in Hpt as [Hd Hpt].
  destruct (HasPrefix_slash val Hval) as [v ->].
  change (String c0 nm +:+ ":" +:+ String d pt)
    with (String c0 nm +:+ String ":" (String d pt)).
  unfold url.Parse.
  rewrite (Cut_skip "#" _ _ (port_plain "#" c0 nm d pt eq_refl Hc0 Hnm Hd Hpt)).
  change (String "/" v) with ("/" +:+ v).
  rewrite (Cut_skip "#" "/" v eq_refl). cbn [fst snd].
  change ("/" +:+ fst (fst (strings.Cut v "#")))
    with (String "/" (fst (fst (strings.Cut v "#")))).
  pose proof (parse_port c0 nm d pt (fst (fst (strings.Cut v "#"))) Hc0 Hnm Hd Hpt) as H.
  destruct (url.parse _ false) as [q|e]; [|exact I].
  destruct (String.eqb _ ""); [exact H|].
  destruct (url.setFragment q _) as [q'|e] eqn:Hf; [|exact I].
  apply setFragment_Path in Hf as [-> _]. exact H.
Qed.

Lemma unescape_slash s p :
  strings.HasPrefix s "/" = true ->
  url.unescape s url.encodePath = Ok p ->
  strings.HasPrefix p "/" = true.
Proof.
  intros Hs. destruct (HasPrefix_slash s Hs) as [r ->].
  simpl. destruct (url.unescape r url.encodePath); [|discriminate].
  intros [= <-]. simpl. apply HasPrefix_nil.
Qed.

Lemma parse_path_rooted u q :
  url.parse u false = Ok q ->
  url.Host q <> "" ->
  url.Path q = "" \/ strings.HasPrefix (url.Path q) "/" = true.
Proof.
  unfold url.parse.
  destruct (url.stringContainsCTLByte u); [discriminate|].
  rewrite andb_false_r.
  destruct (String.eqb u "*"); [intros [= <-] H; contradiction H; reflexivity|].
  destruct (url.getScheme u) as [[scheme rest]|]; [|discriminate].
  match goal with
  | |- context [if ?c then (?a, true, "") else ?b] =>
      destruct (if c then (a, true, "") else b) as [[rest1 fq] rq]
  end.
  destruct (negb (strings.HasPrefix rest1 "/") && negb (String.eqb _ ""));
    [intros [= <-] H; contradiction H; reflexivity|].
  rewrite andb_false_r.
  destruct (negb (strings.HasPrefix rest1 "/") && strings.Contains _ ":");
    [discriminate|].
  destruct ((negb (String.eqb _ "") || negb false && negb (strings.HasPrefix rest1 "///"))
            && strings.HasPrefix rest1 "//").
  - destruct (strings.Index (strings.drop 2 rest1) "/") as [i|] eqn:Hi.
    + destruct (url.parseAuthority _) as [[user host]|]; [|discriminate].
      destruct (url.unescape _ url.encodePath) as [p|] eqn:Hu; [|discriminate].
      intros [= <-] _. right. simpl.
      apply (unescape_slash _ _ (Index_drop _ _ _ Hi) Hu).
    + destruct (url.parseAuthority _) as [[user host]|]; [|discriminate].
      simpl. intros [= <-] _. left. reflexivity.
  - destruct (negb (String.eqb _ "") && strings.HasPrefix rest1 "/");
      (destruct (url.unescape rest1 url.encodePath); [|discriminate]);
      intros [= <-] H; contradiction H; reflexivity.
Qed.

Lemma Parse_path_rooted s q :
  url.Parse s = Ok q ->
  url.Host q <> "" ->
  url.Path q = "" \/ strings.HasPrefix (url.Path q) "/" = true.
Proof.
  unfold url.Parse. destruct (strings.Cut s "#") as [[u frag] b].
  destruct (url.parse u false) as [q0|] eqn:Hp; [|discriminate].
  destruct (String.eqb frag "").
  - intros [= <-]. apply (parse_path_rooted u q0 Hp).
  - intros Hf. apply setFragment_Path in Hf as [-> ->].
    apply (parse_path_rooted u q0 Hp).
Qed.

Variable p : url.URL.
Hypothesis Hport : hasPort (url.Host p).

Lemma hasPort_nonempty : scopeOf p <> "".
Proof.
  destruct Hport as (name & port & E & Hname & _). unfold scopeOf. rewrite E.
  destruct name; [contradiction|]. rewrite !append_cons. discriminate.
Qed.

Lemma scopeAndAppend_empty urls : appendsNothing urls (scopeAndAppend p "" urls).
Proof.
  unfold scopeAndAppend. fold (scopeOf p).
  destruct (checkIfChildren "" (scopeOf p)) as [[]|msg] eqn:Hc; simpl; auto.
  apply checkIfChildren_empty in Hc. destruct (hasPort_nonempty Hc).
Qed.

Lemma relativePath_port val urls :
  val = "" \/ strings.HasPrefix val "/" = true ->
  appendsNothing urls (relativePath p val urls).
Proof.
  intros [->|Hval].
  - apply scopeAndAppend_empty.
  - unfold relativePath. rewrite Hval.
    pose proof (Parse_port_rooted (url.Host p) val Hport Hval) as H.
    destruct (url.Parse _) as [q|e]; [|reflexivity].
    rewrite H. apply scopeAndAppend_empty.
Qed.

Lemma visitHref_port val urls :
  siteLink val = true -> appendsNothing urls (visitHref p val urls).
Proof.
  intros Hval. unfold visitHref.
  destruct (strings.HasPrefix val "#") eqn:H1; [reflexivity|].
  cbv zeta. destruct (strings.HasPrefix val "http") eqn:Hhttp.
  - destruct (url.Parse val) as [q|e] eqn:Hq; [|reflexivity].
    destruct (String.eqb (url.Host p) (url.Host q)) eqn:Hh; simpl; [|reflexivity].
    apply String.eqb_eq in Hh. apply relativePath_port.
    apply (Parse_path_rooted val q Hq). rewrite <- Hh.
    destruct Hport as (name & port & E & Hname & _). rewrite E.
    destruct name; [contradiction|]. rewrite !append_cons. discriminate.
  - apply relativePath_port. right.
    unfold siteLink in Hval. rewrite H1, Hhttp in Hval. exact Hval.
Qed.

End port_links.

Section port_pages.

Variable p : url.URL.
Hypothesis Hport : hasPort (url.Host p).

Lemma rangeHrefs_port vals : forall urls,
  Forall (fun v => siteLink v = true) vals ->
  match rangeHrefs p vals urls with
  | Returns urls' => urls' = urls
  | Panics _ => True
  end.
Proof.
  induction vals as [|v vals IH]; intros urls H; simpl; [reflexivity|].
  apply Forall_cons in H as [Hv H].
  pose proof (visitHref_port p Hport v urls Hv) as Hvisit.
  destruct (visitHref p v urls) as [u'|u'|msg]; simpl in Hvisit;
    [subst u'; apply IH, H | subst u'; reflexivity | exact I].
Qed.

Lemma rangeAnchors_port anchors : forall urls,
  Forall (Forall (fun v => siteLink v = true)) anchors ->
  match rangeAnchors p anchors urls with
  | Returns urls' => urls' = urls
  | Panics _ => True
  end.
Proof.
  induction anchors as [|vals anchors IH]; intros urls H; simpl; [reflexivity|].
  apply Forall_cons in H as [Hv H].
  pose proof (rangeHrefs_port vals urls Hv) as Hr.
  destruct (rangeHrefs p vals urls) as [u'|msg]; [|exact I].
  subst u'. apply IH, H.
Qed.

End port_pages.

(** ** The further properties *)

(** X4.  A slash at the end of the raw URL makes no difference: for a
    URL that does not end with one, [process] called with the slash
    added records the same key and does the same as without it. *)
Theorem process_trailing_slash env u w :
  strings.HasSuffix u "/" = false ->
  normalize (u +:+ "/") = normalize u
  /\ process env (u +:+ "/") w = process env u w.
Proof.
  intros H.
  assert (E : strings.TrimSuffix (u +:+ "/") "/" = strings.TrimSuffix u "/").
  { rewrite TrimSuffix_append. unfold strings.TrimSuffix. rewrite H. reflexivity. }
  unfold normalize, process, parseAndCheck. rewrite E. split; reflexivity.
Qed.

Lemma process_trailing_slash_witness :
  normalize ("https://github.com/features" +:+ "/") = normalize "https://github.com/features"
  /\ process liveEnv ("https://github.com/features" +:+ "/") emptyWorld
     = process liveEnv "https://github.com/features" emptyWorld.
Proof. apply process_trailing_slash. reflexivity. Defined.



(** X6.  What [extractUrls] returns depends only on the [href] values
    of the anchors, in document order: two documents that agree on these
    give the same result, whatever else they hold. *)
Theorem extractUrls_reads_hrefs p doc1 doc2 :
  map hrefValues (anchorsOf doc1) = map hrefValues (anchorsOf doc2) ->
  extractUrls p (Some doc1) = extractUrls p (Some doc2).
Proof. intros H. unfold extractUrls. rewrite !f_anchors, H. reflexivity. Qed.

Lemma extractUrls_reads_hrefs_witness :
  extractUrls features (Some pageOne) = extractUrls features (Some pageOneNested).
Proof. apply extractUrls_reads_hrefs. reflexivity. Defined.

(** X7.  Under every schedule of the goroutines, from every state of
    the program, the crawl only adds: the visited list is extended at
    its end, and a file that the mirror holds is still there. *)
Theorem crawl_only_adds env schedule c :
  (exists more,
     URLs (world (runSchedule env schedule c)) = URLs (world c) ++ more)
  /\ forall name,
       is_Some (files (world c) !! name) ->
       is_Some (files (world (runSchedule env schedule c)) !! name).
Proof. apply (runSchedule_grown env schedule c). Qed.

(** X8.  In every run of the program that [main] starts, under every
    schedule, a URL has been requested at most as often as it has been
    appended to [URLs]: no request is made for a URL that was not
    recorded as visited before. *)
Theorem program_requests_after_claim env target dirFlag disk env' c schedule u :
  main env target dirFlag disk = Started env' c ->
  requestsFor u (trace (world (runSchedule env' schedule c)))
  <= claims u (URLs (world (runSchedule env' schedule c))).
Proof.
  intros Hmain.
  assert (H0 : claimedFirst u c).
  { unfold main in Hmain. cbv zeta in Hmain.
    destruct (String.eqb target ""); [discriminate|].
    destruct (negb _); [discriminate|].
    destruct (String.eqb dirFlag ""); injection Hmain as <- <-;
      unfold claimedFirst; simpl; lia. }
  pose proof (runSchedule_claimedFirst env' u schedule c H0) as H.
  unfold claimedFirst in H.
  destruct (crashed _); lia.
Qed.

Lemma program_requests_after_claim_witness :
  requestsFor "https://github.com/features"
    (trace (world (runSchedule (withDir liveEnv "./data") [0; 0; 0; 0]
                     (start "https://github.com/features/"
                        (logged emptyWorld
                           [EvPrint "dir flag is empty. using default ./data"])))))
  <= claims "https://github.com/features"
       (URLs (world (runSchedule (withDir liveEnv "./data") [0; 0; 0; 0]
                       (start "https://github.com/features/"
                          (logged emptyWorld
                             [EvPrint "dir flag is empty. using default ./data"]))))).
Proof.
  apply (program_requests_after_claim liveEnv "https://github.com/features/" "" ∅).
  reflexivity.
Defined.

(** X9.  When [save] returns no error, [checkForFile] for the same
    directory and name finds the saved bytes (not nil, also when nil was
    saved); [save] leaves the visited list and every other file as they
    were. *)
Theorem save_then_checkForFile env fp name data w w' :
  save env fp name data w = (Returns None, w') ->
  checkForFile fp name w'
  = (Returns (Some (string_of_bytes data)),
     logged w' [EvReadFile (fp +:+ "/" +:+ name); EvPrint "already exists"])
  /\ URLs w' = URLs w
  /\ forall other,
       other <> fp +:+ "/" +:+ name -> files w' !! other = files w !! other.
Proof.
  intros H. pose proof (save_frame env fp name data w) as (Hu & _ & Hframe & Hs).
  rewrite H in Hu, Hframe, Hs. simpl in Hu, Hframe, Hs.
  split; [|split; [exact Hu | exact Hframe]].
  apply checkForFile_hit. apply Hs. reflexivity.
Qed.

Lemma save_then_checkForFile_witness :
  checkForFile "./data" "index.html"
    (snd (save liveEnv "./data" "index.html" None emptyWorld))
  = (Returns (Some ""),
     logged (snd (save liveEnv "./data" "index.html" None emptyWorld))
            [EvReadFile ("./data" +:+ "/" +:+ "index.html"); EvPrint "already exists"])
  /\ URLs (snd (save liveEnv "./data" "index.html" None emptyWorld)) = URLs emptyWorld
  /\ forall other,
       other <> "./data" +:+ "/" +:+ "index.html" ->
       files (snd (save liveEnv "./data" "index.html" None emptyWorld)) !! other
       = files emptyWorld !! other.
Proof.
  apply (save_then_checkForFile liveEnv "./data" "index.html" None emptyWorld).
  reflexivity.
Defined.

(** X10.  With an operating system that does not refuse, a call of
    [process] for a new URL whose page the mirror does not hold, and
    whose request is answered with status 200 and a readable body,
    leaves exactly this body in the page file. *)
Theorem process_saves_fetched_body env target p w resp body :
  cooperative env ->
  url.Parse (strings.TrimSuffix target "/") = Ok p ->
  ~ In (key p) (URLs w) ->
  files w !! pagePath env p = None ->
  http_Get env (atRequest env p w) (key p) = Ok resp ->
  StatusCode resp = StatusOK ->
  Body resp = Ok body ->
  files (snd (process env target w)) !! pagePath env p = Some body.
Proof.
  intros Hos Hp Hnew Hfile Hget Hst Hbody.
  eapply (process_miss_saves env target p w (Some body) None); eauto.
  apply (download_ok env _ _ resp body); [|exact Hst | exact Hbody].
  unfold logged. simpl. rewrite <- app_assoc. exact Hget.
Qed.

Lemma process_saves_fetched_body_witness :
  files (snd (process liveEnv "https://github.com/features/" emptyWorld))
    !! pagePath liveEnv features
  = Some "<html></html>".
Proof.
  apply (process_saves_fetched_body liveEnv "https://github.com/features/" features
           emptyWorld (mkResponse 200 (Ok "<html></html>")) "<html></html>").
  - split; [|split]; reflexivity.
  - reflexivity.
  - simpl. tauto.
  - apply lookup_empty.
  - reflexivity.
  - reflexivity.
  - reflexivity.
Defined.

(** X11.  When the download fails (no answer, a status other than 200,
    a body that cannot be read), [process] still saves a page: an empty
    file.  From then on the page counts as saved: in a world with these
    files, a later run included, [process] makes no request for it. *)
Theorem failed_download_is_cached env target p w :
  cooperative env ->
  url.Parse (strings.TrimSuffix target "/") = Ok p ->
  ~ In (key p) (URLs w) ->
  files w !! pagePath env p = None ->
  fetchFails statusOK (http_Get env (atRequest env p w) (key p)) = true ->
  files (snd (process env target w)) !! pagePath env p = Some ""
  /\ forall w2,
       files w2 = files (snd (process env target w)) ->
       ~ In (key p) (URLs w2) ->
       fetches (trace (snd (process env target w2))) = fetches (trace w2).
Proof.
  intros Hos Hp Hnew Hfile Hfail.
  assert (Hsaved : files (snd (process env target w)) !! pagePath env p = Some "").
  { destruct (download_failed env (key p)
                (logged (mkWorld (URLs w ++ [key p]) (files w) (trace w) (goroutines w))
                        [EvReadFile (pagePath env p);
                         EvPrint "does not exist. downloading and saving..."]))
      as [err Hd].
    { unfold logged. simpl. rewrite <- app_assoc. exact Hfail. }
    exact (process_miss_saves env target p w None (Some err) _ Hos Hp Hnew Hfile Hd). }
  split; [exact Hsaved|].
  intros w2 Hfiles Hnew2.
  destruct (process_cache_hit env target p "" w2 Hp Hnew2) as (o & w' & Hpr & _ & _ & Hf & _).
  { rewrite Hfiles. exact Hsaved. }
  rewrite Hpr. exact Hf.
Qed.

Lemma failed_download_is_cached_witness :
  files (snd (process noContentEnv "https://github.com/features/" emptyWorld))
    !! pagePath noContentEnv features
  = Some ""
  /\ forall w2,
       files w2
       = files (snd (process noContentEnv "https://github.com/features/" emptyWorld)) ->
       ~ In (key features) (URLs w2) ->
       fetches (trace (snd (process noContentEnv "https://github.com/features/" w2)))
       = fetches (trace w2).
Proof.
  apply (failed_download_is_cached noContentEnv "https://github.com/features/" features
           emptyWorld).
  - split; [|split]; reflexivity.
  - reflexivity.
  - simpl. tauto.
  - apply lookup_empty.
  - reflexivity.
Defined.

(** X12.  After a call of [process] for a URL, whether it has returned
    or panicked, a call for a URL with the same key returns nil and
    changes nothing. *)
Theorem process_twice_is_once env t1 t2 k w :
  normalize t1 = Some k ->
  normalize t2 = Some k ->
  process env t2 (snd (process env t1 w)) = (Returns None, snd (process env t1 w)).
Proof.
  intros H1 H2. apply (process_skips_visited env t2 k); [exact H2|].
  unfold normalize in H1.
  destruct (url.Parse (strings.TrimSuffix t1 "/")) as [p|e] eqn:Hp; [|discriminate].
  injection H1 as <-. apply (process_marks env t1 p w Hp).
Qed.

Lemma process_twice_is_once_witness :
  process liveEnv "https://github.com/features"
          (snd (process liveEnv "https://github.com/features/" emptyWorld))
  = (Returns None, snd (process liveEnv "https://github.com/features/" emptyWorld)).
Proof.
  apply (process_twice_is_once liveEnv "https://github.com/features/"
           "https://github.com/features" "https://github.com/features");
    reflexivity.
Defined.

(** X13.  For a scope that is not valid UTF-8 the pattern does not
    compile: [checkIfChildren] panics, whatever the candidate.  With X2
    this settles [checkIfChildren] for every input. *)
Theorem checkIfChildren_invalid_scope_panics input target :
  utf8.ValidString target = false ->
  checkIfChildren input target = Panics "invalid UTF-8".
Proof. apply checkIfChildren_invalid. Qed.

Lemma checkIfChildren_invalid_scope_panics_witness :
  checkIfChildren "example.com/a" ("example.com/" +:+ byte255) = Panics "invalid UTF-8".
Proof. apply checkIfChildren_invalid_scope_panics. vm_compute. reflexivity. Defined.

(** X14.  On a page whose host has a port, [extractUrls] returns no
    link for an [href] that is a fragment, an absolute URL or a path
    from the root: line 249 puts the host before the path, and
    [url.Parse] reads what comes before the colon as a scheme, or
    rejects the colon.  A document with only such links gives the empty
    list (or the panic of X13). *)
Theorem port_host_no_links p doc :
  hasPort (url.Host p) ->
  Forall (Forall (fun v => siteLink v = true)) (map hrefValues (anchorsOf doc)) ->
  extractUrls p (Some doc) = Returns ([], None)
  \/ exists msg, extractUrls p (Some doc) = Panics msg.
Proof.
  intros Hport Hlinks. unfold extractUrls. rewrite f_anchors.
  pose proof (rangeAnchors_port p Hport _ [] Hlinks) as H.
  destruct (rangeAnchors p _ []) as [urls|msg]; [left; subst; reflexivity | right; eauto].
Qed.

Lemma port_host_no_links_witness :
  extractUrls localSite (Some pageLocal) = Returns ([], None)
  \/ exists msg, extractUrls localSite (Some pageLocal) = Panics msg.
Proof.
  apply port_host_no_links.
  - exists "localhost", "8080". repeat split; discriminate.
  - repeat constructor.
Defined.
